(** * VSEPR-SIM analysis tools: classification, scoring, run cards, coverage grid

  A shallow embedding of the Python sources

    - [tools/classification.py]      (module [Classification])
    - [tools/scoring.py]             (module [Scoring])
    - [tools/discovery_pipeline.py]  (module [Pipeline])
    - [tools/gap_targeter.py]        (module [GapTargeter])

  and the properties of them that the design document states.

  Conventions of the embedding.

    - A Python [int] is a [Z]; a [str] is a [string]; a [bool] is a [bool].
    - A [Dict[str, int]] (a composition) is a [gmap string Z], a Python
      [set] of strings is a [gset string], and the grid of cells, a dict
      keyed by index triples, is a [gmap (Z * Z * Z) Cell].  The code reads
      compositions and sets through sums, sizes, membership and sorted
      listings only, which do not depend on the iteration order.  The grid
      is iterated in insertion order by Python and in the order of
      [map_to_list] here: the order in which [identify_gaps] lists cells of
      equal sort key is therefore not modelled, and no property below
      depends on it.
    - A Python [float] is modelled exactly, without rounding, overflow, nan
      or infinities: by a rational [Q] where the code only writes decimal
      literals, adds and compares them (classification bonuses, health
      bands), which keeps those functions executable; by a real [R] where
      the code applies [exp], [log], [sqrt] or a fractional power (the
      scorer and the coverage statistics).
    - Code that can raise is embedded in the error monad [py], whose
      exceptions are the Python exceptions the embedded statements can
      raise. *)

From Stdlib Require Import ZArith QArith Qabs Qreals Reals Lra Lia List.
From Stdlib Require Import String Ascii DecimalString Permutation Sorted.
From stdpp Require Import gmap strings.

#[local] Set Warnings "-clear-no-such-hyp".
Local Open Scope string_scope.

(** ** Python primitives shared by the modules *)

Module Py.

(** The exceptions raised by the embedded statements. *)
Inductive exn : Type :=
| ZeroDivisionError   (* [x / 0] *)
| ValueError          (* [math.log] outside its domain *)
| TypeError           (* ordering a [complex] against a [float] *)
| KeyError.           (* [d[k]] for an absent key *)

Inductive py (A : Type) : Type :=
| Ok (a : A)
| Raise (e : exn).
Arguments Ok {A} a.
Arguments Raise {A} e.

Definition bind {A B} (m : py A) (k : A -> py B) : py B :=
  match m with
  | Ok a => k a
  | Raise e => Raise e
  end.

Definition raises {A} (m : py A) : Prop := exists e, m = Raise e.

(** [str(n)] / [f"{n}"] for an [int]. *)
Definition str_of_int (n : Z) : string := NilZero.string_of_int (Z.to_int n).

(** [sorted(xs)] for strings: ascending, by code point. *)
Fixpoint insert_str (x : string) (l : list string) : list string :=
  match l with
  | [] => [x]
  | y :: l' => if String.leb x y then x :: y :: l' else y :: insert_str x l'
  end.

Definition sorted_str (l : list string) : list string :=
  fold_right insert_str [] l.

(** [sep.join(xs)]. *)
Definition join (sep : string) (xs : list string) : string :=
  String.concat sep xs.

(** [d.get(k, 0)]. *)
Definition get0 (d : gmap string Z) (k : string) : Z := default 0%Z (d !! k).

(** [sum(d.values())]. *)
Definition sum_values (d : gmap string Z) : Z :=
  map_fold (fun _ v acc => (acc + v)%Z) 0%Z d.

(** [x < y] on floats that are rationals. *)
Definition Qltb (x y : Q) : bool := negb (Qle_bool y x).

(** [x / y] on floats, and on ints (true division), over the reals. *)
Definition fdiv (x y : R) : py R :=
  if Req_dec_T y 0 then Raise ZeroDivisionError else Ok (x / y)%R.

(** [math.log(x)]. *)
Definition mlog (x : R) : py R :=
  if Rlt_dec 0 x then Ok (ln x) else Raise ValueError.

End Py.

Import Py.

(** [py] is a monad in stdpp's sense, which gives the notation [x ← m; k]. *)
#[global] Instance py_ret : MRet py := fun A a => Ok a.
#[global] Instance py_bind : MBind py := fun A B k m => bind m k.

(** ** tools/classification.py *)

Module Classification.

Record Classification : Type := mkClassification {
  label : string;
  confidence : Q;
  bonus : Q;
  reason : string
}.

(** The element sets of [MolecularClassifier.__init__]. *)
Definition metals : gset string := list_to_set
  ["Li"; "Be"; "Na"; "Mg"; "Al"; "K"; "Ca"; "Sc"; "Ti"; "V"; "Cr";
   "Mn"; "Fe"; "Co"; "Ni"; "Cu"; "Zn"; "Ga"; "Rb"; "Sr"; "Y"; "Zr";
   "Nb"; "Mo"; "Tc"; "Ru"; "Rh"; "Pd"; "Ag"; "Cd"; "In"; "Sn"; "Sb";
   "Cs"; "Ba"; "La"; "Hf"; "Ta"; "W"; "Re"; "Os"; "Ir"; "Pt"; "Au";
   "Hg"; "Tl"; "Pb"; "Bi"; "Fr"; "Ra"; "Ac"].

Definition semiconductor_elements : gset string := list_to_set
  ["Si"; "Ge"; "Ga"; "As"; "In"; "Sb"; "Te"].

Definition superalloy_metals : gset string := list_to_set
  ["Ni"; "Co"; "Cr"; "W"; "Mo"; "Re"; "Ta"; "Nb"; "Ti"; "Al"].

Definition acid_elements : gset string := list_to_set
  ["S"; "P"; "N"; "Cl"; "Br"; "I"].

(** [x in s] and [bool(s)] for a set. *)
Definition mem (x : string) (s : gset string) : bool := bool_decide (x ∈ s).
Definition nonempty (s : gset string) : bool := bool_decide (s ≠ ∅).

(** [', '.join(sorted(s))]. *)
Definition sorted_join (s : gset string) : string :=
  join ", " (sorted_str (elements s)).

Definition _detect_organometallic (elts : gset string) (counts : gmap string Z)
  : option Classification :=
  let has_carbon := mem "C" elts in
  let has_metal := nonempty (elts ∩ metals) in
  if has_carbon && has_metal then
    Some {| label := "organometallic";
            confidence := 1.0;
            bonus := 1.0;
            reason := "Contains C + metals (" ++ sorted_join (elts ∩ metals) ++ ")" |}
  else None.

Definition _detect_perfluorinated (counts : gmap string Z) : option Classification :=
  let F_count := get0 counts "F" in
  if (6 <=? F_count)%Z then
    Some {| label := "perfluorinated";
            confidence := 1.0;
            bonus := 0.8;
            reason := "Contains " ++ str_of_int F_count ++ " fluorine atoms" |}
  else None.

Definition _detect_semiconductor (elts : gset string) (counts : gmap string Z)
  : option Classification :=
  let semi_present := elts ∩ semiconductor_elements in
  if nonempty semi_present then
    if (mem "Ga" elts && mem "As" elts)
       || (mem "In" elts && mem "P" elts)
       || (mem "Cd" elts && mem "Te" elts) then
      Some {| label := "semiconductor";
              confidence := 1.0;
              bonus := 0.7;
              reason := "Compound semiconductor (" ++ sorted_join semi_present ++ ")" |}
    else if mem "Si" elts || mem "Ge" elts then
      Some {| label := "semiconductor";
              confidence := 0.9;
              bonus := 0.7;
              reason := "Elemental semiconductor (" ++ sorted_join semi_present ++ ")" |}
    else None
  else None.

Definition _detect_superalloy (elts : gset string) (counts : gmap string Z)
  : option Classification :=
  let metals_present := elts ∩ metals in
  let superalloy_present := elts ∩ superalloy_metals in
  if (3 <=? size metals_present)%nat && (2 <=? size superalloy_present)%nat then
    Some {| label := "metallic_superalloy";
            confidence := 0.8;
            bonus := 0.6;
            reason := "Multi-metal alloy (" ++ sorted_join superalloy_present ++ ")" |}
  else None.

Definition _detect_super_acid (elts : gset string) (counts : gmap string Z)
  : option Classification :=
  let has_carbon := mem "C" elts in
  let has_hydrogen := mem "H" elts in
  let acid_present := elts ∩ acid_elements in
  if has_carbon && has_hydrogen && nonempty acid_present then
    if mem "F" elts || mem "S" elts then
      Some {| label := "organic_super_acid";
              confidence := 0.7;
              bonus := 0.5;
              reason := "Organic + acid elements (" ++ sorted_join acid_present ++ ")" |}
    else None
  else None.

Definition _detect_super_base (elts : gset string) (counts : gmap string Z)
  : option Classification :=
  let has_carbon := mem "C" elts in
  let has_nitrogen := mem "N" elts in
  let has_metal := nonempty (elts ∩ metals) in
  let N_count := get0 counts "N" in
  if has_carbon && has_nitrogen then
    if (2 <=? N_count)%Z || has_metal then
      Some {| label := "organic_super_base";
              confidence := 0.7;
              bonus := 0.5;
              reason := "Organic + N (count=" ++ str_of_int N_count ++ ")"
                        ++ (if has_metal then ", metal" else "") |}
    else None
  else None.

Definition _detect_explosive (elts : gset string) (counts : gmap string Z)
  : option Classification :=
  let N_count := get0 counts "N" in
  let O_count := get0 counts "O" in
  let perchlorate :=
    if mem "Cl" elts && (4 <=? O_count)%Z then
      Some {| label := "explosive";
              confidence := 0.5;
              bonus := 0.3;
              reason := "Perchlorate pattern (Cl + O=" ++ str_of_int O_count ++ ")" |}
    else None in
  if (3 <=? N_count)%Z && (3 <=? O_count)%Z then
    let N_O_ratio := (inject_Z N_count / inject_Z (Z.max 1 O_count))%Q in
    if Qle_bool 0.3 N_O_ratio && Qle_bool N_O_ratio 1.5 then
      Some {| label := "explosive";
              confidence := 0.6;
              bonus := 0.3;
              reason := "High N+O content (N=" ++ str_of_int N_count
                        ++ ", O=" ++ str_of_int O_count ++ ")" |}
    else perchlorate
  else perchlorate.

(** [classifications.sort(key=lambda c: c.bonus, reverse=True)]: a stable
    sort, descending by bonus; among equal bonuses the earlier one stays
    first. *)
Fixpoint insert_desc (c : Classification) (l : list Classification)
  : list Classification :=
  match l with
  | [] => [c]
  | d :: l' =>
      if Qle_bool (bonus c) (bonus d) then d :: insert_desc c l'
      else c :: d :: l'
  end.

Definition sort_by_bonus_desc (l : list Classification) : list Classification :=
  fold_left (fun acc c => insert_desc c acc) l [].

(** [classifications.append(x)] guarded by [if x:]. *)
Definition append_if (l : list Classification) (x : option Classification)
  : list Classification :=
  match x with
  | Some c => l ++ [c]
  | None => l
  end.

Definition classify (element_counts : gmap string Z) : list Classification :=
  let classifications := [] in
  let elts := dom element_counts in
  let classifications :=
    append_if classifications (_detect_organometallic elts element_counts) in
  let classifications :=
    append_if classifications (_detect_perfluorinated element_counts) in
  let classifications :=
    append_if classifications (_detect_semiconductor elts element_counts) in
  let classifications :=
    append_if classifications (_detect_superalloy elts element_counts) in
  let classifications :=
    append_if classifications (_detect_super_acid elts element_counts) in
  let classifications :=
    append_if classifications (_detect_super_base elts element_counts) in
  let classifications :=
    append_if classifications (_detect_explosive elts element_counts) in
  sort_by_bonus_desc classifications.

(** [classify_molecule] delegates to the default classifier. *)
Definition classify_molecule (element_counts : gmap string Z)
  : list Classification :=
  classify element_counts.

End Classification.

(** ** tools/scoring.py *)

Module Scoring.

Local Open Scope R_scope.

Record ScoreBreakdown : Type := mkScoreBreakdown {
  wN : R;
  wQ : R;
  wM : R;
  wD : R;
  wS : R;
  wC : R;
  cost : R;
  value : R;
  priority : R;
  classifications : list string
}.

(** The configuration held by a [MolecularScorer] (the arguments of
    [__init__]; its set of atomic numbers is read by no method). *)
Record MolecularScorer : Type := mkMolecularScorer {
  mu1 : R;
  mu2 : R;
  sigma1 : R;
  sigma2 : R;
  a : R;
  b : R;
  k_charge : R;
  alpha_metal : R;
  beta_diversity : R;
  lambda_cost : R;
  use_classification : bool
}.

(** [default_scorer = MolecularScorer()]. *)
Definition default_scorer : MolecularScorer :=
  {| mu1 := 8.0; mu2 := 56.0; sigma1 := 3.0; sigma2 := 12.0;
     a := 1.0; b := 0.8;
     k_charge := 2.0;
     alpha_metal := 0.3;
     beta_diversity := 0.5;
     lambda_cost := 0.01;
     use_classification := true |}.

(** The local set [metal_symbols] of [compute_wM]. *)
Definition metal_symbols : gset string := list_to_set
  ["Li"; "Be"; "Na"; "Mg"; "Al"; "K"; "Ca"; "Sc"; "Ti";
   "V"; "Cr"; "Mn"; "Fe"; "Co"; "Ni"; "Cu"; "Zn"; "Ga";
   "Rb"; "Sr"; "Y"; "Zr"; "Nb"; "Mo"; "Tc"; "Ru"; "Rh";
   "Pd"; "Ag"; "Cd"; "In"; "Cs"; "Ba"; "La"; "Hf"; "Ta";
   "W"; "Re"; "Os"; "Ir"; "Pt"; "Au"; "Hg"; "Tl"; "Fr";
   "Ra"; "Ac"].

(** A Python number that is a [float] or a [complex]; the scorer produces a
    [complex] only from [N ** 1.5] at a negative [N], and nothing reads its
    value. *)
Inductive pynum : Type :=
| PyFloat (x : R)
| PyComplex.

(** [n ** 1.5] for an [int] [n]. *)
Definition pow15 (n : Z) : pynum :=
  if (n <? 0)%Z then PyComplex
  else if (n =? 0)%Z then PyFloat 0
  else PyFloat (Rpower (IZR n) 1.5).

Definition compute_wN (self : MolecularScorer) (N : Z) : py R :=
  e1 ← fdiv (- ((IZR N - mu1 self) ^ 2)) (2 * sigma1 self ^ 2);
  let term1 := a self * exp e1 in
  e2 ← fdiv (- ((IZR N - mu2 self) ^ 2)) (2 * sigma2 self ^ 2);
  let term2 := b self * exp e2 in
  mret (term1 + term2).

Definition compute_wQ (self : MolecularScorer) (total_charge : R) : R :=
  exp (- k_charge self * Rabs total_charge).

Definition compute_wM (self : MolecularScorer) (element_counts : gmap string Z)
  : py R :=
  let N_total := sum_values element_counts in
  if (N_total =? 0)%Z then mret 1.0
  else
    let N_metal :=
      sum_values (filter (fun ec => ec.1 ∈ metal_symbols) element_counts) in
    r ← fdiv (IZR N_metal) (IZR N_total);
    mret (1.0 + alpha_metal self * r).

Definition compute_wD (self : MolecularScorer) (element_counts : gmap string Z)
  : py R :=
  let N := sum_values element_counts in
  let unique := size element_counts in
  if (N <=? 1)%Z then mret 1.0
  else
    l ← mlog (IZR (1 + N));
    r ← fdiv (INR unique) l;
    mret (1.0 + beta_diversity self * r).

(** [sum(c.bonus for c in classifications)]. *)
Definition total_bonus (cs : list Classification.Classification) : Q :=
  fold_left Qplus (map Classification.bonus cs) 0%Q.

Definition compute_wC (self : MolecularScorer) (element_counts : gmap string Z)
  : R * list string :=
  if negb (use_classification self) then (1.0, [])
  else
    let classifications := Classification.classify_molecule element_counts in
    match classifications with
    | [] => (1.0, [])
    | _ => (1.0 + Q2R (total_bonus classifications),
            map Classification.label classifications)
    end.

Definition compute_wS (health : string) (converged bounded : bool) : R :=
  if String.eqb health "converged" || (bounded && converged) then 1.0
  else if String.eqb health "bounded" || bounded then 0.3
  else 0.05.

Definition compute_cost (N : Z) (has_long_range : bool) : py pynum :=
  let raw_cost := if has_long_range then PyFloat (IZR (N * N)) else pow15 N in
  match raw_cost with
  | PyFloat x => c ← fdiv x (Rpower 2000 1.5); mret (PyFloat c)
  | PyComplex => mret PyComplex
  end.

Definition score (self : MolecularScorer) (N : Z) (element_counts : gmap string Z)
    (total_charge : R) (health : string) (converged bounded has_long_range : bool)
  : py ScoreBreakdown :=
  wN ← compute_wN self N;
  let wQ := compute_wQ self total_charge in
  wM ← compute_wM self element_counts;
  wD ← compute_wD self element_counts;
  let '(wC, class_labels) := compute_wC self element_counts in
  let wS := compute_wS health converged bounded in
  let V := wN * wQ * wM * wD * wC * wS in
  C ← compute_cost N has_long_range;
  match C with
  | PyComplex =>
      (* [S] is complex and [min(100.0, S * 50.0)] cannot order it *)
      Raise TypeError
  | PyFloat C =>
      S ← fdiv V (1.0 + lambda_cost self * C);
      let S_normalized := Rmin 100.0 (S * 50.0) in
      mret {| wN := wN; wQ := wQ; wM := wM; wD := wD; wS := wS; wC := wC;
              cost := C; value := V; priority := S_normalized;
              classifications := class_labels |}
  end.

(** The priority that [score_molecule] returns next to the rounded
    breakdown: [breakdown.priority] of the default scorer. *)
Definition score_molecule (N : Z) (element_counts : gmap string Z)
    (total_charge : R) (health : string) (converged bounded has_long_range : bool)
  : py R :=
  breakdown ← score default_scorer N element_counts total_charge health
                    converged bounded has_long_range;
  mret (priority breakdown).

End Scoring.

(** ** tools/discovery_pipeline.py *)

Module Pipeline.

Record DiscoveryRecord : Type := mkDiscoveryRecord {
  formula : string;
  generation_method : string;
  energy : Q;
  max_force : Q;
  converged : bool;
  stable : bool;
  database_validated : bool;
  is_novel : bool;
  confidence : Q;
  notes : string;
  xyz_file : string;
  timestamp : string
}.

(** The formula that [parse_xyz_file] builds from the element counts it has
    collected: symbols sorted, each followed by its count unless the count
    is 1. *)
Definition formula_of_counts (element_counts : gmap string Z) : string :=
  let formula_parts :=
    map (fun element =>
           let count := get0 element_counts element in
           if (count =? 1)%Z then element
           else element ++ str_of_int count)
        (sorted_str (elements (dom element_counts))) in
  join "" formula_parts.

Definition _infer_domain (formula : string) (num_atoms : Z) : string :=
  if (num_atoms =? 1)%Z then "@molecule"
  else if (num_atoms <=? 10)%Z then
    if String.prefix "Ar" formula || String.prefix "He" formula
    then "@cluster"
    else "@molecule"
  else if (num_atoms <=? 100)%Z then "@gas"
  else "@bulk".

(** [_determine_health(record, sim_data)]; [sim_data] is not read. *)
Definition _determine_health (record : DiscoveryRecord) : string :=
  if converged record && stable record && Qltb (max_force record) 0.01
  then "converged"
  else if Qltb (energy record) 0 && Qltb (max_force record) 0.1
  then "bounded"
  else if Qltb 1e6 (Qabs (energy record)) || Qltb 10.0 (max_force record)
  then "exploded"
  else "invalid".

(** The fields of [RunCard] that [_generate_run_card] derives from the
    record alone (identifiers, files, score and tags are left out). *)
Record RunCard : Type := mkRunCard {
  card_title : string;
  card_formula : string;
  card_domain : string;
  card_size : Z;
  card_health : string;
  card_generation_method : string
}.

(** [len(s)]. *)
Definition len (s : string) : Z := Z.of_nat (String.length s).

(** [domain.replace('@', '')]. *)
Fixpoint strip_at (s : string) : string :=
  match s with
  | EmptyString => EmptyString
  | String c s' => if Ascii.eqb c "@"%char then strip_at s' else String c (strip_at s')
  end.


End Pipeline.

(** ** tools/gap_targeter.py *)

Module GapTargeter.

Local Open Scope R_scope.

Record Cell : Type := mkCell {
  scale : Z;
  temp : R;
  density : R;
  n_runs : Z;
  n_success : Z;
  n_failures : Z;
  mean_energy : R;
  std_energy : R;
  max_mismatch : R
}.

(** [Cell(scale=.., temp=.., density=..)] with the dataclass defaults. *)
Definition new_cell (scale : Z) (temp density : R) : Cell :=
  mkCell scale temp density 0 0 0 0.0 0.0 0.0.

(** Field assignments [cell.f = v]. *)
Definition set_n_runs (v : Z) (c : Cell) : Cell :=
  mkCell (scale c) (temp c) (density c) v (n_success c) (n_failures c)
         (mean_energy c) (std_energy c) (max_mismatch c).
Definition set_n_success (v : Z) (c : Cell) : Cell :=
  mkCell (scale c) (temp c) (density c) (n_runs c) v (n_failures c)
         (mean_energy c) (std_energy c) (max_mismatch c).
Definition set_n_failures (v : Z) (c : Cell) : Cell :=
  mkCell (scale c) (temp c) (density c) (n_runs c) (n_success c) v
         (mean_energy c) (std_energy c) (max_mismatch c).
Definition set_mean_energy (v : R) (c : Cell) : Cell :=
  mkCell (scale c) (temp c) (density c) (n_runs c) (n_success c) (n_failures c)
         v (std_energy c) (max_mismatch c).
Definition set_std_energy (v : R) (c : Cell) : Cell :=
  mkCell (scale c) (temp c) (density c) (n_runs c) (n_success c) (n_failures c)
         (mean_energy c) v (max_mismatch c).
Definition set_max_mismatch (v : R) (c : Cell) : Cell :=
  mkCell (scale c) (temp c) (density c) (n_runs c) (n_success c) (n_failures c)
         (mean_energy c) (std_energy c) v.

Definition success_rate (self : Cell) : R :=
  if (0 <? n_runs self)%Z then IZR (n_success self) / IZR (n_runs self) else 0.0.

Definition is_sparse (self : Cell) (threshold : Z) : bool :=
  (n_runs self <? threshold)%Z.

Definition is_high_mismatch (self : Cell) (threshold : R) : bool :=
  if Rlt_dec threshold (max_mismatch self) then true else false.

(** The grid [self.cells]: a dict from index triples to cells.  The cells
    are mutable objects owned by the dict; a cell returned in a list is
    identified by its key. *)
Abbreviation key := (Z * Z * Z)%type.
Abbreviation grid := (gmap (Z * Z * Z) Cell).

Definition scale_bins : list Z := [2; 5; 10; 20; 50; 100]%Z.

(** [np.linspace(start, stop, num)]. *)
Definition linspace (start stop : R) (num : nat) : list R :=
  map (fun i => start + INR i * ((stop - start) / INR (num - 1))) (seq 0 num).

Definition temp_bins : list R := linspace 50 500 10.
Definition density_bins : list R := linspace 0.001 0.1 10.

(** [enumerate(xs)]. *)
Definition enumerate {A} (xs : list A) : list (Z * A) :=
  imap (fun i x => (Z.of_nat i, x)) xs.

Definition _initialize_grid : grid :=
  fold_left (fun cells '(i, scale) =>
    fold_left (fun cells '(j, temp) =>
      fold_left (fun cells '(k, density) =>
        <[(i, j, k) := new_cell scale temp density]> cells)
        (enumerate density_bins) cells)
      (enumerate temp_bins) cells)
    (enumerate scale_bins) ∅.

(** [np.argmin(xs)]: the index of the first smallest element.  It is only
    applied to the distances to a non-empty list of bins. *)
Fixpoint argmin_from (best : R) (best_i i : nat) (xs : list R) : nat :=
  match xs with
  | [] => best_i
  | x :: xs' =>
      if Rlt_dec x best then argmin_from x i (S i) xs'
      else argmin_from best best_i (S i) xs'
  end.

Definition argmin (xs : list R) : nat :=
  match xs with
  | [] => 0%nat
  | x :: xs' => argmin_from x 0 1 xs'
  end.

Definition _get_cell_key (scale : Z) (temp density : R) : key :=
  let i := argmin (map (fun s => IZR (Z.abs (s - scale))) scale_bins) in
  let j := argmin (map (fun t => Rabs (t - temp)) temp_bins) in
  let k := argmin (map (fun d => Rabs (d - density)) density_bins) in
  (Z.of_nat i, Z.of_nat j, Z.of_nat k).

(** [record_run] mutates the cell it finds; it returns the grid after the
    call together with the outcome ([Ok ()] or the exception raised; the
    counters are incremented before the statistics divide by [n]).
    [np.sqrt] is [sqrt]: its argument is never negative on a grid built by
    [_initialize_grid] and [record_run] (lemma [welford_radicand]). *)
Definition record_run (cells : grid) (scale : Z) (temp density : R)
    (success : bool) (energy : R) : grid * py () :=
  let key := _get_cell_key scale temp density in
  match cells !! key with
  | None => (cells, Raise KeyError)
  | Some cell =>
      let cell := set_n_runs (n_runs cell + 1) cell in
      let cell :=
        if success then set_n_success (n_success cell + 1) cell
        else set_n_failures (n_failures cell + 1) cell in
      if success then
        let n := n_success cell in
        let old_mean := mean_energy cell in
        match fdiv (energy - old_mean) (IZR n) with
        | Raise e => (<[key := cell]> cells, Raise e)
        | Ok d =>
            let cell := set_mean_energy (old_mean + d) cell in
            match fdiv (std_energy cell ^ 2 * IZR (n - 1)
                        + (energy - old_mean) * (energy - mean_energy cell))
                       (IZR n) with
            | Raise e => (<[key := cell]> cells, Raise e)
            | Ok v =>
                let cell := set_std_energy (sqrt v) cell in
                (<[key := cell]> cells, Ok ())
            end
        end
      else (<[key := cell]> cells, Ok ())
  end.

(** The six axis-aligned neighbours of a key. *)
Definition neighbors (ijk : key) : list key :=
  let '(i, j, k) := ijk in
  [(i - 1, j, k); (i + 1, j, k);
   (i, j - 1, k); (i, j + 1, k);
   (i, j, k - 1); (i, j, k + 1)]%Z.

(** The mismatch of [cell] against the cell at [neighbor_key], when that
    neighbour qualifies (the body of the inner loop). *)
Definition mismatch_with (cells : grid) (cell : Cell) (neighbor_key : key)
  : option R :=
  match cells !! neighbor_key with
  | None => None
  | Some neighbor =>
      if (2 <=? n_success neighbor)%Z then
        let delta := Rabs (mean_energy cell - mean_energy neighbor) in
        let combined_std := sqrt (std_energy cell ^ 2 + std_energy neighbor ^ 2) in
        if Rlt_dec 0 combined_std then Some (delta / combined_std) else None
      else None
  end.

(** One iteration of the outer loop of [compute_mismatches]. *)
Definition mismatch_step (cells : grid) (ijk : key) : grid :=
  match cells !! ijk with
  | None => cells
  | Some cell =>
      if (n_success cell <? 2)%Z then cells
      else
        match omap (mismatch_with cells cell) (neighbors ijk) with
        | [] => cells
        | m :: ms => <[ijk := set_max_mismatch (fold_left Rmax ms m) cell]> cells
        end
  end.

Definition compute_mismatches (cells : grid) : grid :=
  map_fold (fun ijk _ acc => mismatch_step acc ijk) cells cells.

(** [(c.n_runs, -c.max_mismatch) < (d.n_runs, -d.max_mismatch)] on tuples. *)
Definition gap_key_lt (c d : Cell) : bool :=
  if (n_runs c =? n_runs d)%Z
  then (if Rlt_dec (- max_mismatch c) (- max_mismatch d) then true else false)
  else (n_runs c <? n_runs d)%Z.

(** [gaps.sort(key=...)]: stable, ascending. *)
Fixpoint insert_gap (x : key * Cell) (l : list (key * Cell)) : list (key * Cell) :=
  match l with
  | [] => [x]
  | y :: l' =>
      if gap_key_lt x.2 y.2 then x :: y :: l' else y :: insert_gap x l'
  end.

Definition sort_gaps (l : list (key * Cell)) : list (key * Cell) :=
  fold_left (fun acc x => insert_gap x acc) l [].

(** [identify_gaps] refreshes the mismatches in place and returns the gap
    cells; the result is the grid after the call and the list. *)
Definition identify_gaps (cells : grid) (sparse_threshold : Z)
    (mismatch_threshold : R) : grid * list (key * Cell) :=
  let cells := compute_mismatches cells in
  let gaps :=
    List.filter (fun kc => is_sparse kc.2 sparse_threshold
                           || is_high_mismatch kc.2 mismatch_threshold)
                (map_to_list cells) in
  (cells, sort_gaps gaps).

(** The default thresholds of [identify_gaps]. *)
Definition default_sparse_threshold : Z := 10.
Definition default_mismatch_threshold : R := 0.5.

(** A sequence of calls of [record_run], stopping at the first exception. *)
Record Run : Type := mkRun {
  run_scale : Z;
  run_temp : R;
  run_density : R;
  run_success : bool;
  run_energy : R
}.

Definition run_key (r : Run) : key :=
  _get_cell_key (run_scale r) (run_temp r) (run_density r).

Fixpoint record_runs (cells : grid) (runs : list Run) : grid * py () :=
  match runs with
  | [] => (cells, Ok ())
  | r :: runs' =>
      match record_run cells (run_scale r) (run_temp r) (run_density r)
                       (run_success r) (run_energy r) with
      | (cells', Ok _) => record_runs cells' runs'
      | (cells', Raise e) => (cells', Raise e)
      end
  end.

(** The batch statistics of a list of energies, as [np.mean] and [np.std]
    compute them: the arithmetic mean and the population standard
    deviation. *)
Definition sum_R (xs : list R) : R := fold_right Rplus 0 xs.

Definition batch_mean (xs : list R) : R := sum_R xs / INR (length xs).

Definition batch_std (xs : list R) : R :=
  sqrt (sum_R (map (fun x => (x - batch_mean xs) ^ 2) xs) / INR (length xs)).

(** The energies of the successful runs of [runs] that fall in cell [k]. *)
Definition successful_energies (k : key) (runs : list Run) : list R :=
  map run_energy
      (List.filter (fun r => run_success r && bool_decide (run_key r = k)) runs).

End GapTargeter.

(** ** tools/gap_targeter.py: scheduling, execution and the report *)

Module GapSchedule.
Import GapTargeter.
Local Open Scope R_scope.

Definition _generate_formula (scale : Z) : string :=
  if (scale <=? 5)%Z then "H2O"
  else if (scale <=? 20)%Z then "CH4"
  else if (scale <=? 50)%Z then "C6H6"
  else "C10H22".

(** A run configuration, the dict that [schedule_runs] builds. *)
Record RunConfig : Type := mkRunConfig {
  cfg_scale : Z;
  cfg_temp : R;
  cfg_density : R;
  cfg_formula : string;
  cfg_seed : Z
}.

(** [range(n)]. *)
Definition range (n : Z) : list Z := map Z.of_nat (seq 0 (Z.to_nat n)).

(** The configuration that iteration [i] of [schedule_runs] builds from the
    non-empty gap list [first :: rest]: [gaps[i % len(gaps)]]. *)
Definition scheduled (first : key * Cell) (rest : list (key * Cell)) (i : Z)
  : RunConfig :=
  let gaps := first :: rest in
  let cell := (default first (gaps !! Z.to_nat (i mod Z.of_nat (length gaps)))).2 in
  {| cfg_scale := scale cell;
     cfg_temp := temp cell;
     cfg_density := density cell;
     cfg_formula := _generate_formula (scale cell);
     cfg_seed := (i + 1000000)%Z |}.

(** [schedule_runs(n_runs)]: the grid after the call ([identify_gaps]
    refreshes the mismatches) and the schedule. *)
Definition schedule_runs (cells : grid) (n_runs : Z) : grid * list RunConfig :=
  let '(cells, gaps) :=
    identify_gaps cells default_sparse_threshold default_mismatch_threshold in
  match gaps with
  | [] => (cells, [])
  | first :: rest => (cells, map (scheduled first rest) (range n_runs))
  end.

(** What the simulation process did for one configuration, as
    [execute_schedule] sees it: it completed, with the flag
    [returncode == 0] and the energy parsed from its output (0.0 when the
    output has none), or the [try] block raised (time limit, unreadable
    energy). *)
Inductive Outcome : Type :=
| Completed (success : bool) (energy : R)
| Crashed.

(** The body of the loop of [execute_schedule] for one configuration.  A
    [record_run] that raises inside the [try] block is caught by the
    [except] clause like any other exception, and the failure is recorded
    by a second [record_run], whose exception is not caught. *)
Definition execute_one (cells : grid) (config : RunConfig) (outcome : Outcome)
  : grid * py () :=
  let record_failure cells :=
    record_run cells (cfg_scale config) (cfg_temp config) (cfg_density config)
               false 0.0 in
  match outcome with
  | Completed success energy =>
      match record_run cells (cfg_scale config) (cfg_temp config)
                       (cfg_density config) success energy with
      | (cells, Ok _) => (cells, Ok ())
      | (cells, Raise _) => record_failure cells
      end
  | Crashed => record_failure cells
  end.

(** [execute_schedule(schedule)], given the outcome of each simulation. *)
Fixpoint execute_schedule (cells : grid) (schedule : list (RunConfig * Outcome))
  : grid * py () :=
  match schedule with
  | [] => (cells, Ok ())
  | (config, outcome) :: schedule' =>
      match execute_one cells config outcome with
      | (cells, Ok _) => execute_schedule cells schedule'
      | (cells, Raise e) => (cells, Raise e)
      end
  end.

(** The run that [execute_one] records for a configuration and an outcome
    when nothing raises. *)
Definition executed_run (co : RunConfig * Outcome) : Run :=
  let '(config, outcome) := co in
  match outcome with
  | Completed success energy =>
      mkRun (cfg_scale config) (cfg_temp config) (cfg_density config) success energy
  | Crashed =>
      mkRun (cfg_scale config) (cfg_temp config) (cfg_density config) false 0.0
  end.

(** [sum(f(c) for c in self.cells.values())] for an integer [f]. *)
Definition sum_cells (f : Cell -> Z) (cells : grid) : Z :=
  map_fold (fun _ c acc => (acc + f c)%Z) 0%Z cells.

(** The summary numbers of the report of [save_coverage_report]. *)
Record CoverageReport : Type := mkCoverageReport {
  grid_size : Z;
  total_runs : Z;
  cells_with_data : Z;
  sparse_cells : Z;
  high_mismatch_cells : Z;
  coverage_percentage : R
}.

Definition indicator (b : bool) : Z := if b then 1%Z else 0%Z.

Definition save_coverage_report (cells : grid) : py CoverageReport :=
  let with_data := sum_cells (fun c => indicator (0 <? n_runs c)%Z) cells in
  let grid_size := Z.of_nat (size cells) in
  fraction ← fdiv (IZR with_data) (IZR grid_size);
  mret {| grid_size := grid_size;
          total_runs := sum_cells n_runs cells;
          cells_with_data := with_data;
          sparse_cells :=
            sum_cells (fun c => indicator (is_sparse c default_sparse_threshold)) cells;
          high_mismatch_cells :=
            sum_cells (fun c => indicator
                         (is_high_mismatch c default_mismatch_threshold)) cells;
          coverage_percentage := fraction * 100 |}.

End GapSchedule.

(** ** tools/chemical_validator.py: [MoleculeValidator.validate_molecule] *)

Module Validator.

Record MoleculeRecord : Type := mkMoleculeRecord {
  formula : string;
  name : string;
  cid : option Z;
  inchi : option string;
  smiles : option string;
  molecular_weight : option Q
}.

Record ValidationResult : Type := mkValidationResult {
  is_known : bool;
  confidence : Q;
  matches : list MoleculeRecord;
  novel : bool;
  notes : string
}.

(** [s.lower()], on the bytes of [s]: the letters A-Z are lowered.  For the
    two comparisons below this agrees with Python's [lower] on any text,
    since no character outside A-Z lowers to a single ASCII letter of
    "unstable" or "reactive". *)
Definition lower_ascii (c : ascii) : ascii :=
  let n := nat_of_ascii c in
  if (65 <=? n)%nat && (n <=? 90)%nat then ascii_of_nat (n + 32) else c.

Fixpoint lower (s : string) : string :=
  match s with
  | EmptyString => EmptyString
  | String c s' => String (lower_ascii c) (lower s')
  end.

(** [m.name.lower() not in ["unstable", "reactive"]]. *)
Definition names_stable (m : MoleculeRecord) : bool :=
  negb (String.eqb (lower (name m)) "unstable"
        || String.eqb (lower (name m)) "reactive").

(** [validate_molecule(formula, energy, stability)], given the list
    [matches] that [self.db.lookup_by_formula(formula)] returns (the lookup
    itself, cache and network, is outside the model). *)
Definition validate_molecule (db_matches : list MoleculeRecord)
    (formula : string) (energy : Q) (stability : string) : ValidationResult :=
  let is_known := (0 <? length db_matches)%nat in
  let confidence := if is_known then 1.0%Q else 0.0%Q in
  match db_matches with
  | [] =>
      if String.eqb stability "stable" then
        {| is_known := is_known; confidence := confidence; matches := db_matches;
           novel := true;
           notes := "Potentially novel stable molecule! No database match found." |}
      else
        {| is_known := is_known; confidence := confidence; matches := db_matches;
           novel := false;
           notes := "Unknown molecule, but unstable in simulation." |}
  | first :: _ =>
      let known_stable := existsb names_stable db_matches in
      if String.eqb stability "stable" && known_stable then
        {| is_known := is_known; confidence := confidence; matches := db_matches;
           novel := false;
           notes := "Matches known stable molecule: " ++ name first |}
      else if String.eqb stability "unstable" && known_stable then
        {| is_known := is_known; confidence := 0.5%Q; matches := db_matches;
           novel := false;
           notes := "Simulation predicts unstable, but " ++ name first
                    ++ " is known stable (check parameters!)" |}
      else
        {| is_known := is_known; confidence := confidence; matches := db_matches;
           novel := false;
           notes := "Matches database: " ++ name first |}
  end.

End Validator.

(** ** tools/discovery_pipeline.py: parsing and the workflow *)

Module XyzParse.
Import Pipeline.

(** [lines[2:stop]]: Python's slice, whose negative [stop] counts from the
    end of the list. *)
Definition slice_from_2 {A : Type} (lines : list A) (stop : Z) : list A :=
  let len := Z.of_nat (length lines) in
  let stop' := if (stop <? 0)%Z then Z.max (len + stop) 0 else Z.min stop len in
  take (Z.to_nat (stop' - 2)) (drop 2 lines).

(** [len(parts) >= 4]: the line is counted as an atom. *)
Definition counted (parts : list string) : bool := (4 <=? length parts)%nat.

(** One iteration of the counting loop of [parse_xyz_file], on the parts
    [line.split()] of a line. *)
Definition count_line (element_counts : gmap string Z) (parts : list string)
  : gmap string Z :=
  if counted parts then
    match parts with
    | element :: _ => <[element := (get0 element_counts element + 1)%Z]> element_counts
    | [] => element_counts
    end
  else element_counts.

Definition count_elements (rows : list (list string)) : gmap string Z :=
  fold_left count_line rows ∅.

(** [parse_xyz_file].  The text of the file enters through [num_atoms], the
    integer that [int(lines[0].strip())] reads, and [lines], the lines of
    the file, each given by its [split()] parts. *)
Definition parse_xyz_file (num_atoms : Z) (lines : list (list string))
  : string * Z * gmap string Z :=
  let element_counts := count_elements (slice_from_2 lines (2 + num_atoms)) in
  (formula_of_counts element_counts, num_atoms, element_counts).

End XyzParse.

Module Workflow.
Import Pipeline.
Local Open Scope R_scope.

(** What a call can raise: the [AttributeError] of an attribute that the
    object does not have, or an exception of the scorer. *)
Inductive failure : Type :=
| AttributeError
| ScorerError (e : Py.exn).

Inductive result (A : Type) : Type :=
| Returns (a : A)
| Raises (f : failure).
Arguments Returns {A} a.
Arguments Raises {A} f.

Definition of_py {A} (m : py A) : result A :=
  match m with
  | Ok a => Returns a
  | Raise e => Raises (ScorerError e)
  end.

(** [sim_data], the dict that [parse_simulation_output] returns. *)
Record SimData : Type := mkSimData {
  sim_energy : Q;
  sim_max_force : Q;
  sim_converged : bool;
  sim_stable : bool
}.

(** [record.model]: [DiscoveryRecord] declares no field [model] and nothing
    assigns one, so the attribute lookup raises. *)
Definition record_model (record : DiscoveryRecord) : result string :=
  Raises AttributeError.

(** [_calculate_priority_score]; of the pair it returns, the priority. *)
Definition _calculate_priority_score (record : DiscoveryRecord) (sim_data : SimData)
    (element_counts : gmap string Z) : result R :=
  let health := _determine_health record in
  match record_model record with
  | Raises f => Raises f
  | Returns model =>
      let has_long_range :=
        String.eqb model "LJ+Coulomb" || String.eqb model "UFF" in
      let total_charge := 0.0 in
      let N := sum_values element_counts in
      of_py (Scoring.score_molecule N element_counts total_charge health
               (converged record) (stable record) has_long_range)
  end.

(** An entry of the cards index: the card with its score and tags. *)
Record ScoredCard : Type := mkScoredCard {
  scored_card : RunCard;
  scored_model : string;
  scored_score : R;
  scored_tags : list string
}.

(** The state of the pipeline: the discovery log and the cards index. *)
Record PipelineState : Type := mkPipelineState {
  catalog : list DiscoveryRecord;
  cards : list ScoredCard
}.

(** The tags of a card. *)
Definition card_tags (record : DiscoveryRecord) (score : R) (health : string)
  : list string :=
  (if stable record then ["stable"] else [])
  ++ (if is_novel record then ["novel"] else [])
  ++ (if Rlt_dec 80 score then ["high_priority"] else [])
  ++ (if String.eqb health "converged" then ["converged"] else []).

(** [_generate_run_card], in the order of its statements: the score is
    computed first (line 350), then the domain (line 353), the health and
    the tags, and the card is appended to [self.cards] at the end.  (Run
    identifier and files are outside the model.) *)
Definition _generate_run_card (state : PipelineState) (record : DiscoveryRecord)
    (sim_data : SimData) (element_counts : gmap string Z)
  : PipelineState * result ScoredCard :=
  match _calculate_priority_score record sim_data element_counts with
  | Raises f => (state, Raises f)
  | Returns score =>
      let domain := _infer_domain (formula record) (len (formula record)) in
      let health := _determine_health record in
      let card :=
        {| scored_card :=
             {| card_title := formula record ++ "@" ++ strip_at domain;
                card_formula := formula record;
                card_domain := domain;
                card_size := len (formula record);
                card_health := health;
                card_generation_method := generation_method record |};
           scored_model := "LJ+Coulomb";
           scored_score := score;
           scored_tags := card_tags record score health |} in
      ({| catalog := catalog state; cards := cards state ++ [card] |},
       Returns card)
  end.

(** [run_discovery_workflow(xyz_file, method)], on the parsed structure
    ([num_atoms], [lines], see [XyzParse.parse_xyz_file]), the simulation
    data that [parse_simulation_output] returns, and the database matches
    for the formula. *)
Definition run_discovery_workflow (state : PipelineState)
    (num_atoms : Z) (lines : list (list string)) (sim_data : SimData)
    (db_matches : list Validator.MoleculeRecord)
    (xyz_file timestamp method : string)
  : PipelineState * result DiscoveryRecord :=
  let '(formula, num_atoms, element_counts) :=
    XyzParse.parse_xyz_file num_atoms lines in
  let stability_str := if sim_stable sim_data then "stable" else "unstable" in
  let validation :=
    Validator.validate_molecule db_matches formula (sim_energy sim_data)
                                stability_str in
  let record :=
    {| formula := formula;
       generation_method := method;
       energy := sim_energy sim_data;
       max_force := sim_max_force sim_data;
       converged := sim_converged sim_data;
       stable := sim_stable sim_data;
       database_validated := true;
       is_novel := Validator.novel validation;
       confidence := Validator.confidence validation;
       notes := Validator.notes validation;
       xyz_file := xyz_file;
       timestamp := timestamp |} in
  let state := {| catalog := catalog state ++ [record]; cards := cards state |} in
  match _generate_run_card state record sim_data element_counts with
  | (state, Returns _) => (state, Returns record)
  | (state, Raises f) => (state, Raises f)
  end.

End Workflow.

(** * Vocabulary of the properties *)

Module Composition.

(** No element has a negative count. *)
Definition nonneg_counts (element_counts : gmap string Z) : Prop :=
  map_Forall (fun _ v => (0 <= v)%Z) element_counts.

(** A composition in the sense of the data model: every element that is
    present has a count of at least one. *)
Definition valid (element_counts : gmap string Z) : Prop :=
  map_Forall (fun _ v => (1 <= v)%Z) element_counts.

(** The total atom count [N] of a composition. *)
Definition total (element_counts : gmap string Z) : Z := sum_values element_counts.

End Composition.

Module Health.

(** The four enumerated health states. *)
Definition states : list string := ["converged"; "bounded"; "exploded"; "invalid"].

Definition known (health : string) : Prop := health ∈ states.

(** The three conditions that the design document gives for the bands
    [converged], [bounded] and [exploded], each on its own. *)
Definition band_converged (converged stable : bool) (energy max_force : Q) : Prop :=
  converged = true /\ stable = true /\ (max_force < 0.01)%Q.

Definition band_bounded (energy max_force : Q) : Prop :=
  (energy < 0)%Q /\ (max_force < 0.1)%Q.

Definition band_exploded (energy max_force : Q) : Prop :=
  (1e6 < Qabs energy)%Q \/ (10.0 < max_force)%Q.

End Health.

Module Domain.

(** The formula is led by a noble-gas symbol, as the pipeline tests it. *)
Definition noble_gas_like (formula : string) : Prop :=
  String.prefix "Ar" formula = true \/ String.prefix "He" formula = true.

End Domain.

Module Coverage.
Import GapTargeter.
Local Open Scope R_scope.

(** The counters of a cell add up. *)
Definition counters_consistent (c : Cell) : Prop :=
  n_runs c = (n_success c + n_failures c)%Z.

(** A cell as [_initialize_grid] creates it. *)
Definition untouched (c : Cell) : Prop :=
  n_runs c = 0%Z /\ n_success c = 0%Z /\ n_failures c = 0%Z
  /\ mean_energy c = 0 /\ std_energy c = 0 /\ max_mismatch c = 0.

(** Two states of a cell that differ at most in [max_mismatch]. *)
Definition same_but_mismatch (c c' : Cell) : Prop :=
  scale c = scale c' /\ temp c = temp c' /\ density c = density c'
  /\ n_runs c = n_runs c' /\ n_success c = n_success c'
  /\ n_failures c = n_failures c'
  /\ mean_energy c = mean_energy c' /\ std_energy c = std_energy c'.

(** The energy statistics of cell [c] are those of the energies [es]:
    [es] are counted by [n_success], and the mean and the deviation are the
    batch ones (0.0, the initial values, as long as [es] is empty). *)
Definition summarises (c : Cell) (es : list R) : Prop :=
  n_success c = Z.of_nat (length es)
  /\ (es = [] -> mean_energy c = 0 /\ std_energy c = 0)
  /\ (es <> [] -> mean_energy c = batch_mean es /\ std_energy c = batch_std es).

(** Grid [g'] has the cells of [g], up to their [max_mismatch]. *)
Definition frames (g g' : grid) : Prop :=
  forall k, option_Forall2 same_but_mismatch (g !! k) (g' !! k).

(** The cell after a successful run of energy [e] was recorded in [c]. *)
Definition recorded_success (c : Cell) (e : R) : Cell :=
  let n := (n_success c + 1)%Z in
  let mean' := mean_energy c + (e - mean_energy c) / IZR n in
  mkCell (scale c) (temp c) (density c) (n_runs c + 1) n (n_failures c)
         mean'
         (sqrt ((std_energy c ^ 2 * IZR (n - 1)
                 + (e - mean_energy c) * (e - mean')) / IZR n))
         (max_mismatch c).

(** The cell after a failed run was recorded in [c]. *)
Definition recorded_failure (c : Cell) : Cell :=
  mkCell (scale c) (temp c) (density c) (n_runs c + 1) (n_success c)
         (n_failures c + 1) (mean_energy c) (std_energy c) (max_mismatch c).

(** The failed runs of [runs] that fall in cell [k]. *)
Definition failed_runs (k : key) (runs : list Run) : list Run :=
  List.filter (fun r => negb (run_success r) && bool_decide (run_key r = k)) runs.

(** Grid [g] holds the outcome of [runs]: every key that a run can fall in
    has a cell, and every cell has the statistics of the successful energies
    that fell in it, the count of the failed runs that fell in it, and
    consistent counters. *)
Definition tracks (g : grid) (runs : list Run) : Prop :=
  (forall sc tp dn, is_Some (g !! _get_cell_key sc tp dn))
  /\ (forall k c, g !! k = Some c ->
        summarises c (successful_energies k runs)
        /\ n_failures c = Z.of_nat (length (failed_runs k runs))
        /\ counters_consistent c).

End Coverage.

Module Placement.
Import GapTargeter.
Local Open Scope R_scope.

(** Cell [c] sits at key [ijk] of the grid: its coordinates are the bin
    centres that the three indices select. *)
Definition placed (ijk : key) (c : Cell) : Prop :=
  exists ni nj nk : nat,
    ijk = (Z.of_nat ni, Z.of_nat nj, Z.of_nat nk)
    /\ scale_bins !! ni = Some (scale c)
    /\ temp_bins !! nj = Some (temp c)
    /\ density_bins !! nk = Some (density c).

Definition placed_grid (g : grid) : Prop :=
  forall k c, g !! k = Some c -> placed k c.

(** [x] may precede [y] in a list sorted by the key of [identify_gaps]. *)
Definition gap_order (x y : key * Cell) : Prop := gap_key_lt y.2 x.2 = false.

(** The first occurrence of 0 in [xs] is at index [n], and no element is
    negative. *)
Definition first_zero_at (n : nat) (xs : list R) : Prop :=
  xs !! n = Some 0
  /\ (forall q y, (q < n)%nat -> xs !! q = Some y -> 0 < y)
  /\ Forall (fun y => 0 <= y) xs.

(** The cell that [compute_mismatches] leaves at key [ijk], computed from
    the grid [cells] as it was before the call: [cell] itself, or [cell]
    with [max_mismatch] set to the largest mismatch against its qualifying
    neighbours. *)
Definition refreshed (cells : grid) (ijk : key) (cell : Cell) : Cell :=
  if (n_success cell <? 2)%Z then cell
  else
    match omap (mismatch_with cells cell) (neighbors ijk) with
    | [] => cell
    | m :: ms => set_max_mismatch (fold_left Rmax ms m) cell
    end.

End Placement.

Module Config.
Import Scoring.
Local Open Scope R_scope.

(** A configuration whose widths are not zero and whose amplitudes and
    coefficients are not negative (the default one is of this kind). *)
Definition sane (self : MolecularScorer) : Prop :=
  sigma1 self <> 0 /\ sigma2 self <> 0
  /\ 0 <= a self /\ 0 <= b self
  /\ 0 <= alpha_metal self /\ 0 <= beta_diversity self /\ 0 <= lambda_cost self.

(** [MolecularScorer(..., use_classification=flag)] with the other arguments
    of [self]. *)
Definition with_classification (flag : bool) (self : MolecularScorer)
  : MolecularScorer :=
  {| mu1 := mu1 self; mu2 := mu2 self; sigma1 := sigma1 self;
     sigma2 := sigma2 self; a := a self; b := b self;
     k_charge := k_charge self; alpha_metal := alpha_metal self;
     beta_diversity := beta_diversity self; lambda_cost := lambda_cost self;
     use_classification := flag |}.

(** The number of metal atoms that [compute_wM] counts. *)
Definition metal_atoms (element_counts : gmap string Z) : Z :=
  sum_values (filter (fun ec => ec.1 ∈ metal_symbols) element_counts).

End Config.

Module FloatRange.
Import Scoring Composition.
Local Open Scope R_scope.

(** Python's floats end near 1.8e308, and [x ** 2] on a float raises
    [OverflowError] beyond that, as does the conversion of a larger integer
    and the quotient of two integers that exceeds it.  The exact numbers of
    this development have no such limit.  Within the bound below every
    square that [compute_wN] and [compute_cost] take, and every quotient of
    two counts, stays in range, so that the code raises only what the
    model raises. *)
Definition bound : Z := 10 ^ 150.

(** An atom count within the bound. *)
Definition int_ok (N : Z) : Prop := (Z.abs N <= bound)%Z.

(** Counts that are not negative and whose sum is within the bound. *)
Definition counts_ok (element_counts : gmap string Z) : Prop :=
  nonneg_counts element_counts /\ (sum_values element_counts <= bound)%Z.

Definition real_ok (x : R) : Prop := Rabs x <= IZR bound.

(** A configuration whose centres and widths are within the bound. *)
Definition config_ok (self : MolecularScorer) : Prop :=
  real_ok (mu1 self) /\ real_ok (mu2 self)
  /\ real_ok (sigma1 self) /\ real_ok (sigma2 self).

End FloatRange.

Module Ranking.
Import Classification.

(** [c] is listed before [d] in a list sorted by bonus, descending. *)
Definition bonus_desc (c d : Classification) : Prop := (bonus d <= bonus c)%Q.

(** The labels of the seven rules, in the order in which [classify] applies
    them. *)
Definition rule_labels : list string :=
  ["organometallic"; "perfluorinated"; "semiconductor"; "metallic_superalloy";
   "organic_super_acid"; "organic_super_base"; "explosive"].

(** The composition has the label among its classifications. *)
Definition labelled (element_counts : gmap string Z) (l : string) : Prop :=
  exists c, c ∈ classify element_counts /\ label c = l.

End Ranking.

(** * Properties *)

(** ** The classifier *)

Module ClassificationSpec.
Import Classification.

Lemma insert_desc_perm c l : insert_desc c l ≡ₚ c :: l.
Proof.
  induction l as [|d l IH]; simpl; [done|].
  destruct (Qle_bool (bonus c) (bonus d)); [|done].
  rewrite IH. apply perm_swap.
Qed.

Lemma sort_by_bonus_desc_perm l : sort_by_bonus_desc l ≡ₚ l.
Proof.
  unfold sort_by_bonus_desc.
  assert (H : forall acc, fold_left (fun acc c => insert_desc c acc) l acc ≡ₚ acc ++ l).
  { induction l as [|c l IH]; intros acc; simpl.
    - by rewrite app_nil_r.
    - rewrite IH, insert_desc_perm. simpl. apply Permutation_middle. }
  apply (H []).
Qed.

Lemma elem_of_sort_by_bonus_desc c l : c ∈ sort_by_bonus_desc l <-> c ∈ l.
Proof. by rewrite sort_by_bonus_desc_perm. Qed.

Lemma elem_of_append_if c l x :
  c ∈ append_if l x <-> c ∈ l \/ x = Some c.
Proof.
  destruct x as [d|]; simpl.
  - rewrite elem_of_app, list_elem_of_singleton. naive_solver.
  - naive_solver.
Qed.

(** What the organometallic rule returns when it fires. *)
Lemma _detect_organometallic_fires (elts : gset string) counts m :
  "C" ∈ elts -> m ∈ elts -> m ∈ metals ->
  exists c, _detect_organometallic elts counts = Some c
            /\ label c = "organometallic" /\ bonus c = 1.0%Q /\ confidence c = 1.0%Q.
Proof.
  intros HC Hm Hmetal. unfold _detect_organometallic, mem, nonempty.
  rewrite bool_decide_eq_true_2 by done.
  rewrite bool_decide_eq_true_2 by set_solver.
  simpl. eauto.
Qed.

(** The test cases listed at the end of [classification.py]. *)
Example classify_test_cases :
  map (fun ec => map label (classify ec))
      [ {[ "C" := 10; "H" := 10; "Fe" := 1 ]};
        {[ "C" := 4; "H" := 9; "Mg" := 1; "Br" := 1 ]};
        {[ "C" := 2; "F" := 4 ]};
        {[ "C" := 8; "F" := 18 ]};
        {[ "Ga" := 1; "As" := 1 ]};
        {[ "Ni" := 60; "Cr" := 20; "Fe" := 20 ]};
        {[ "C" := 1; "H" := 1; "F" := 3; "S" := 1; "O" := 3 ]};
        {[ "C" := 7; "H" := 5; "N" := 3; "O" := 6 ]};
        {[ "H" := 2; "O" := 1 ]} ]%Z
  = [ ["organometallic"]; ["organometallic"]; []; ["perfluorinated"];
      ["semiconductor"]; ["metallic_superalloy"]; ["organic_super_acid"];
      ["organic_super_base"; "explosive"]; [] ].
Proof. by vm_compute. Qed.

(** C7. A composition that contains carbon and an element of the metal set
    is classified, among others, as [organometallic] with bonus 1.0 and
    confidence 1.0; water, [{H: 2, O: 1}], gets no classification. *)
Theorem classify_organometallic :
  (forall element_counts : gmap string Z,
      "C" ∈ dom element_counts ->
      (exists m, m ∈ dom element_counts /\ m ∈ metals) ->
      exists c, c ∈ classify element_counts
                /\ label c = "organometallic"
                /\ bonus c = 1.0%Q /\ confidence c = 1.0%Q)
  /\ classify {[ "H" := 2%Z; "O" := 1%Z ]} = [].
Proof.
  split; [|by vm_compute].
  intros ec HC (m & Hm & Hmetal).
  destruct (_detect_organometallic_fires (dom ec) ec m HC Hm Hmetal)
    as (c & Hc & Hl & Hb & Hconf).
  exists c. split; [|done].
  unfold classify. rewrite elem_of_sort_by_bonus_desc.
  do 6 (rewrite elem_of_append_if; left).
  rewrite elem_of_append_if. by right.
Qed.

(** Ferrocene, [{C: 10, H: 10, Fe: 1}], carries the classification. *)
Lemma classify_organometallic_witness :
  exists c, c ∈ classify {[ "C" := 10%Z; "H" := 10%Z; "Fe" := 1%Z ]}
            /\ label c = "organometallic"
            /\ bonus c = 1.0%Q /\ confidence c = 1.0%Q.
Proof.
  apply (proj1 classify_organometallic).
  - by vm_compute.
  - exists "Fe". split; by vm_compute.
Defined.

End ClassificationSpec.

(** ** The scorer *)

Module ScoringSpec.
Import Classification Scoring Composition.
Local Open Scope R_scope.

(** *** Every bonus handed out by the classifier is non-negative *)

Ltac detector_bonus :=
  intros; repeat case_match; simplify_eq; simpl; by apply Qle_bool_iff.

Lemma classify_bonus_nonneg element_counts c :
  c ∈ classify element_counts -> (0 <= bonus c)%Q.
Proof.
  unfold classify. rewrite ClassificationSpec.elem_of_sort_by_bonus_desc.
  rewrite !ClassificationSpec.elem_of_append_if, elem_of_nil.
  unfold _detect_organometallic, _detect_perfluorinated, _detect_semiconductor,
    _detect_superalloy, _detect_super_acid, _detect_super_base, _detect_explosive.
  intros H. repeat destruct H as [H|H]; [done|detector_bonus..].
Qed.

Lemma fold_left_Qplus_nonneg (qs : list Q) (acc : Q) :
  (0 <= acc)%Q -> Forall (fun q => 0 <= q)%Q qs ->
  (0 <= fold_left Qplus qs acc)%Q.
Proof.
  intros Hacc Hqs. revert acc Hacc.
  induction Hqs as [|q qs Hq _ IH]; intros acc Hacc; simpl; [done|].
  apply IH. replace 0%Q with (0 + 0)%Q by reflexivity.
  by apply Qplus_le_compat.
Qed.

Lemma total_bonus_nonneg element_counts :
  (0 <= total_bonus (classify element_counts))%Q.
Proof.
  apply fold_left_Qplus_nonneg; [done|].
  apply Forall_map, Forall_forall. intros c Hc. by eapply classify_bonus_nonneg.
Qed.

Lemma compute_wC_ge_1 self element_counts :
  1 <= (compute_wC self element_counts).1.
Proof.
  unfold compute_wC, classify_molecule.
  destruct (negb (use_classification self)); simpl; [lra|].
  pose proof (total_bonus_nonneg element_counts) as H.
  apply Qle_Rle in H. rewrite RMicromega.Q2R_0 in H.
  destruct (classify element_counts); simpl in *; lra.
Qed.

(** *** Sums of counts *)

Lemma sum_values_nonneg element_counts :
  nonneg_counts element_counts -> (0 <= sum_values element_counts)%Z.
Proof.
  unfold nonneg_counts, sum_values.
  apply (map_fold_weak_ind
           (fun r m => map_Forall (fun _ v => (0 <= v)%Z) m -> (0 <= r)%Z)).
  - done.
  - intros i x m r Hi IH Hall.
    apply map_Forall_insert in Hall as [Hx Hm]; [|done].
    specialize (IH Hm). lia.
Qed.

Lemma nonneg_counts_filter (P : string * Z -> Prop) `{!forall x, Decision (P x)}
    element_counts :
  nonneg_counts element_counts -> nonneg_counts (filter P element_counts).
Proof.
  intros Hall k v Hk. apply map_lookup_filter_Some in Hk as [Hk _].
  by apply (Hall k v).
Qed.

(** *** The factors under the default configuration *)

Ltac unfold_py := unfold mbind, py_bind, bind, mret, py_ret in *.

Lemma fdiv_ok x y : y <> 0 -> fdiv x y = Ok (x / y).
Proof. intros Hy. unfold fdiv. by destruct (Req_dec_T y 0). Qed.

Lemma mlog_ok x : 0 < x -> mlog x = Ok (ln x).
Proof. intros Hx. unfold mlog. by destruct (Rlt_dec 0 x). Qed.

Lemma compute_wN_default N :
  exists w, compute_wN default_scorer N = Ok w /\ 0 < w.
Proof.
  unfold compute_wN; simpl.
  rewrite !fdiv_ok by lra. unfold_py. eexists; split; [done|].
  apply Rplus_lt_0_compat; apply Rmult_lt_0_compat; (lra || apply exp_pos).
Qed.

Lemma compute_wQ_pos self q : 0 < compute_wQ self q.
Proof. apply exp_pos. Qed.

Lemma compute_wS_pos health converged bounded :
  0 < compute_wS health converged bounded.
Proof. unfold compute_wS. repeat case_match; lra. Qed.

Lemma compute_wM_default element_counts :
  sum_values element_counts = 0%Z \/ nonneg_counts element_counts ->
  exists w, compute_wM default_scorer element_counts = Ok w /\ 1 <= w
            /\ (sum_values element_counts = 0%Z -> w = 1).
Proof.
  intros H. unfold compute_wM.
  destruct (Z.eqb_spec (sum_values element_counts) 0) as [Hz|Hnz].
  { exists 1.0. unfold_py. repeat split; [lra|intros; lra]. }
  destruct H as [H|H]; [done|].
  pose proof (sum_values_nonneg _ H) as Htot.
  pose proof (sum_values_nonneg _
    (nonneg_counts_filter (fun ec => ec.1 ∈ metal_symbols) _ H)) as Hmet.
  set (N_metal := sum_values (filter _ element_counts)) in *.
  set (N_total := sum_values element_counts) in *.
  assert (0 < IZR N_total) by (apply IZR_lt; lia).
  assert (0 <= IZR N_metal) by (apply IZR_le; lia).
  rewrite fdiv_ok by lra. unfold_py. eexists; repeat split; [|done].
  simpl. assert (0 <= IZR N_metal / IZR N_total).
  { apply Rmult_le_pos; [done|]. left. by apply Rinv_0_lt_compat. }
  lra.
Qed.

Lemma compute_wD_default element_counts :
  exists w, compute_wD default_scorer element_counts = Ok w /\ 1 <= w
            /\ ((sum_values element_counts <= 1)%Z -> w = 1).
Proof.
  unfold compute_wD.
  destruct (Z.leb_spec (sum_values element_counts) 1) as [Hle|Hgt].
  { exists 1.0. unfold_py. repeat split; [lra|intros; lra]. }
  set (N := sum_values element_counts) in *.
  assert (1 < IZR (1 + N)) by (apply IZR_lt; lia).
  assert (0 < ln (IZR (1 + N))).
  { rewrite <- ln_1. apply ln_increasing; lra. }
  rewrite mlog_ok by lra. unfold_py. rewrite fdiv_ok by lra.
  eexists; repeat split; [|lia].
  simpl. assert (0 <= INR (size element_counts) / ln (IZR (1 + N))).
  { apply Rmult_le_pos; [apply pos_INR|]. left. by apply Rinv_0_lt_compat. }
  lra.
Qed.

Lemma Rpower_2000_pos : 0 < Rpower 2000 1.5.
Proof. apply exp_pos. Qed.

Lemma compute_cost_nonneg N has_long_range :
  (0 <= N)%Z ->
  exists c, compute_cost N has_long_range = Ok (PyFloat c) /\ 0 <= c
            /\ (N = 0%Z -> c = 0).
Proof.
  intros HN. pose proof Rpower_2000_pos as HP.
  assert (Hdiv : forall x, 0 <= x -> 0 <= x / Rpower 2000 1.5).
  { intros x Hx. apply Rmult_le_pos; [done|]. left. by apply Rinv_0_lt_compat. }
  unfold compute_cost, pow15. destruct has_long_range.
  - rewrite fdiv_ok by lra. unfold_py. eexists; repeat split.
    + apply Hdiv, IZR_le. nia.
    + intros ->. simpl. unfold Rdiv. apply Rmult_0_l.
  - destruct (Z.ltb_spec N 0); [lia|].
    destruct (Z.eqb_spec N 0) as [->|Hnz].
    + rewrite fdiv_ok by lra. unfold_py. unfold Rdiv. rewrite Rmult_0_l.
      eexists; repeat split; lra.
    + rewrite fdiv_ok by lra. unfold_py. eexists; repeat split; [|done].
      apply Hdiv. left. apply exp_pos.
Qed.

(** *** The whole score *)

(** Under the default configuration [score] returns a breakdown whenever
    [N] is not negative and either the counts sum to zero or none of them
    is negative; the breakdown is the one the formulas describe. *)
Lemma score_default_ok N element_counts total_charge health converged bounded
      has_long_range :
  (0 <= N)%Z ->
  sum_values element_counts = 0%Z \/ nonneg_counts element_counts ->
  exists s,
    score default_scorer N element_counts total_charge health converged bounded
          has_long_range = Ok s
    /\ 0 < wN s /\ 0 < wQ s /\ 1 <= wM s /\ 1 <= wD s /\ 1 <= wC s /\ 0 < wS s
    /\ 0 <= cost s
    /\ value s = wN s * wQ s * wM s * wD s * wC s * wS s
    /\ priority s = Rmin 100 (value s / (1 + 0.01 * cost s) * 50)
    /\ wS s = compute_wS health converged bounded
    /\ (sum_values element_counts = 0%Z -> wM s = 1)
    /\ ((sum_values element_counts <= 1)%Z -> wD s = 1)
    /\ (N = 0%Z -> cost s = 0).
Proof.
  intros HN Hec.
  destruct (compute_wN_default N) as (wn & EN & HwN).
  destruct (compute_wM_default element_counts Hec) as (wm & EM & HwM & HwM1).
  destruct (compute_wD_default element_counts) as (wd & ED & HwD & HwD1).
  destruct (compute_cost_nonneg N has_long_range HN) as (c & EC & Hc & Hc0).
  pose proof (compute_wC_ge_1 default_scorer element_counts) as HwC.
  pose proof (compute_wQ_pos default_scorer total_charge) as HwQ.
  pose proof (compute_wS_pos health converged bounded) as HwS.
  unfold score. rewrite EN, EM, ED, EC. unfold_py.
  destruct (compute_wC default_scorer element_counts) as [wc labels].
  simpl in HwC |- *. rewrite fdiv_ok by lra.
  eexists; split; [reflexivity|]. simpl.
  repeat split; try done.
  replace 100.0 with 100 by lra. replace 50.0 with 50 by lra.
  by replace 1.0 with 1 by lra.
Qed.

(** A breakdown with positive factors and a non-negative cost has its
    priority between 0 and 100. *)
Lemma priority_range (s : ScoreBreakdown) :
  0 < wN s -> 0 < wQ s -> 1 <= wM s -> 1 <= wD s -> 1 <= wC s -> 0 < wS s ->
  0 <= cost s ->
  value s = wN s * wQ s * wM s * wD s * wC s * wS s ->
  priority s = Rmin 100 (value s / (1 + 0.01 * cost s) * 50) ->
  0 < value s /\ 0 <= priority s <= 100.
Proof.
  intros HN HQ HM HD HC HS Hc HV HP.
  assert (0 < value s) as Hv.
  { rewrite HV. repeat apply Rmult_lt_0_compat; lra. }
  split; [done|]. rewrite HP. split; [|apply Rmin_l].
  apply Rmin_glb; [lra|].
  apply Rmult_le_pos; [|lra]. left. apply Rdiv_lt_0_compat; lra.
Qed.

(** C1 (as amended). The scorer does not reject a composition whose atom
    count is zero: with [N = 0] it raises no exception and returns a
    breakdown in which the metal and diversity factors take their guarded
    value 1.0, the cost is 0 and the priority is [min(100, 50 * value)],
    a number between 0 and 100. *)
Theorem score_zero_atoms element_counts total_charge health converged bounded
        has_long_range :
  total element_counts = 0%Z ->
  exists s,
    score default_scorer 0 element_counts total_charge health converged bounded
          has_long_range = Ok s
    /\ wM s = 1 /\ wD s = 1 /\ cost s = 0
    /\ priority s = Rmin 100 (value s * 50)
    /\ 0 <= priority s <= 100.
Proof.
  unfold total. intros Hz.
  destruct (score_default_ok 0 element_counts total_charge health converged
              bounded has_long_range) as (s & Es & H); [done|by left|].
  destruct H as (HN & HQ & HM & HD & HC & HS & Hc & HV & HP & _ & HM1 & HD1 & Hc0).
  destruct (priority_range s) as [_ Hrange]; try done.
  exists s. repeat split; try tauto.
  - apply HD1. lia.
  - rewrite HP, Hc0 by done. do 2 f_equal. field.
Qed.

Lemma score_zero_atoms_witness :
  exists s,
    score default_scorer 0 ∅ 0 "converged" true true false = Ok s
    /\ wM s = 1 /\ wD s = 1 /\ cost s = 0
    /\ priority s = Rmin 100 (value s * 50)
    /\ 0 <= priority s <= 100.
Proof. apply (score_zero_atoms ∅). reflexivity. Defined.

(** C1 as stated fails: the empty composition is scored, not rejected. *)
Lemma score_zero_atoms_not_rejected :
  total ∅ = 0%Z
  /\ (exists s, score default_scorer 0 ∅ 0 "converged" true true false = Ok s)
  /\ ~ raises (score default_scorer 0 ∅ 0 "converged" true true false).
Proof.
  split; [reflexivity|].
  destruct (score_default_ok 0 ∅ 0 "converged" true true false)
    as (s & Es & _); [done|by left|].
  split; [by exists s|]. intros [e He]. congruence.
Qed.

(** C2. For a valid composition with [N >= 1] atoms and any charge, health,
    flags and long-range choice, the default scorer returns a breakdown
    whose priority lies in [0, 100]: it is [min(100, 50 * value / (1 + 0.01 *
    cost))], and all six factors and the cost are non-negative. *)
Theorem score_priority_in_range element_counts N total_charge health converged
        bounded has_long_range :
  valid element_counts -> N = total element_counts -> (1 <= N)%Z ->
  exists s,
    score default_scorer N element_counts total_charge health converged bounded
          has_long_range = Ok s
    /\ 0 <= priority s <= 100
    /\ priority s = Rmin 100 (value s / (1 + 0.01 * cost s) * 50)
    /\ 0 <= wN s /\ 0 <= wQ s /\ 0 <= wM s /\ 0 <= wD s /\ 0 <= wC s
    /\ 0 <= wS s /\ 0 <= cost s.
Proof.
  intros Hvalid -> HN.
  assert (nonneg_counts element_counts) as Hnn.
  { intros k v Hk. specialize (Hvalid k v Hk). simpl in Hvalid. lia. }
  destruct (score_default_ok (total element_counts) element_counts total_charge
              health converged bounded has_long_range)
    as (s & Es & H); [lia|by right|].
  destruct H as (HwN & HQ & HM & HD & HC & HS & Hc & HV & HP & _).
  destruct (priority_range s) as [_ Hrange]; try done.
  exists s. repeat split; try tauto; lra.
Qed.

(** Water, [{H: 2, O: 1}] with [N = 3]. *)
Lemma score_priority_in_range_witness :
  exists s,
    score default_scorer 3 {[ "H" := 2%Z; "O" := 1%Z ]} 0 "converged" true true
          false = Ok s
    /\ 0 <= priority s <= 100
    /\ priority s = Rmin 100 (value s / (1 + 0.01 * cost s) * 50)
    /\ 0 <= wN s /\ 0 <= wQ s /\ 0 <= wM s /\ 0 <= wD s /\ 0 <= wC s
    /\ 0 <= wS s /\ 0 <= cost s.
Proof.
  apply score_priority_in_range.
  - unfold valid. apply (bool_decide_unpack _). by vm_compute.
  - by vm_compute.
  - lia.
Defined.

(** *** The stability gate *)

(** C8 (as amended). For a health string that is none of the four
    enumerated states the gate is decided by the flags alone: 1.0 when
    bounded and converged are both true, 0.3 when only bounded is true, and
    0.05, the value of an invalid run, exactly when bounded is false. *)
Theorem compute_wS_unknown_health health converged bounded :
  ~ Health.known health ->
  compute_wS health converged bounded
  = (if bounded then if converged then 1.0 else 0.3 else 0.05)
  /\ (compute_wS health converged bounded = 0.05 <-> bounded = false).
Proof.
  intros Hunknown. unfold Health.known, Health.states in Hunknown.
  assert (String.eqb health "converged" = false) as E1.
  { apply String.eqb_neq. intros ->. apply Hunknown. set_solver. }
  assert (String.eqb health "bounded" = false) as E2.
  { apply String.eqb_neq. intros ->. apply Hunknown. set_solver. }
  unfold compute_wS. rewrite E1, E2.
  destruct bounded, converged; simpl; (split; [done|]); split; intros; (done || lra).
Qed.

Lemma compute_wS_unknown_health_witness :
  compute_wS "unknown" false false = 0.05
  /\ (compute_wS "unknown" false false = 0.05 <-> false = false).
Proof.
  apply (compute_wS_unknown_health "unknown" false false).
  apply (bool_decide_eq_false_1 ("unknown" ∈ Health.states)). by vm_compute.
Defined.

(** C8 as stated fails: an unknown health string with both flags set is
    gated at 1.0, not at 0.05. *)
Lemma compute_wS_unknown_health_flags :
  ~ Health.known "unknown"
  /\ compute_wS "unknown" true true = 1.0
  /\ compute_wS "unknown" true true <> 0.05.
Proof.
  split.
  { apply (bool_decide_eq_false_1 ("unknown" ∈ Health.states)). by vm_compute. }
  unfold compute_wS; simpl. split; [done|lra].
Qed.

End ScoringSpec.

(** ** Health bands and the domain tag *)

Module PipelineSpec.
Import Pipeline Composition.

Lemma Qltb_reflect x y : reflect (x < y)%Q (Qltb x y).
Proof.
  unfold Qltb. destruct (Qle_bool y x) eqn:E; simpl; constructor.
  - apply Qle_bool_iff in E. by apply Qle_not_lt.
  - apply Qnot_le_lt. intros H. apply Qle_bool_iff in H. congruence.
Qed.

(** C3. [_determine_health] returns one of the four states, and which one
    is fixed by the bands taken in order: [converged] exactly when
    converged, stable and max_force < 0.01; otherwise [bounded] exactly
    when energy < 0 and max_force < 0.1; otherwise [exploded] exactly when
    |energy| > 1e6 or max_force > 10.0; otherwise [invalid].  The four
    cases exclude each other and cover every record. *)
Theorem determine_health_bands record :
  let h := _determine_health record in
  let C := Health.band_converged (converged record) (stable record)
                                 (energy record) (max_force record) in
  let B := Health.band_bounded (energy record) (max_force record) in
  let E := Health.band_exploded (energy record) (max_force record) in
  Health.known h
  /\ (h = "converged" <-> C)
  /\ (h = "bounded" <-> ~ C /\ B)
  /\ (h = "exploded" <-> ~ C /\ ~ B /\ E)
  /\ (h = "invalid" <-> ~ C /\ ~ B /\ ~ E).
Proof.
  unfold _determine_health, Health.known, Health.states,
    Health.band_converged, Health.band_bounded, Health.band_exploded.
  destruct (converged record), (stable record),
    (Qltb_reflect (max_force record) 0.01),
    (Qltb_reflect (energy record) 0),
    (Qltb_reflect (max_force record) 0.1),
    (Qltb_reflect 1e6 (Qabs (energy record))),
    (Qltb_reflect 10.0 (max_force record));
    simpl; (split; [set_solver|]); intuition discriminate.
Qed.

(** [_infer_domain] itself follows the rule of the design document in its
    [num_atoms] argument. *)
Lemma _infer_domain_rule formula num_atoms :
  (num_atoms = 1%Z -> _infer_domain formula num_atoms = "@molecule")
  /\ (num_atoms <> 1%Z -> (num_atoms <= 10)%Z -> Domain.noble_gas_like formula ->
      _infer_domain formula num_atoms = "@cluster")
  /\ (num_atoms <> 1%Z -> (num_atoms <= 10)%Z -> ~ Domain.noble_gas_like formula ->
      _infer_domain formula num_atoms = "@molecule")
  /\ ((10 < num_atoms <= 100)%Z -> _infer_domain formula num_atoms = "@gas")
  /\ ((100 < num_atoms)%Z -> _infer_domain formula num_atoms = "@bulk").
Proof.
  unfold _infer_domain, Domain.noble_gas_like.
  destruct (Z.eqb_spec num_atoms 1), (Z.leb_spec num_atoms 10),
    (Z.leb_spec num_atoms 100),
    (String.prefix "Ar" formula), (String.prefix "He" formula);
    simpl; repeat split; intros; try done; try lia; intuition discriminate.
Qed.


End PipelineSpec.

(** ** The coverage grid *)

Module GapTargeterSpec.
Import GapTargeter Coverage.
Local Open Scope R_scope.
Local Open Scope list_scope.

(** *** The initial grid *)

Lemma fold_left_preserves {A : Type} (Q : grid -> Prop) (f : grid -> A -> grid) l g :
  (forall g a, Q g -> Q (f g a)) -> Q g -> Q (fold_left f l g).
Proof. intros Hf. revert g. induction l; simpl; auto. Qed.

Lemma fold_left_establishes {A : Type} (Q : grid -> Prop) (f : grid -> A -> grid) l g a :
  a ∈ l -> (forall g, Q (f g a)) -> (forall g b, Q g -> Q (f g b)) ->
  Q (fold_left f l g).
Proof.
  intros Ha Hest Hpres. revert g.
  induction l as [|b l IH]; intros g; [by apply elem_of_nil in Ha|].
  apply elem_of_cons in Ha as [->|Ha]; simpl.
  - apply fold_left_preserves; auto.
  - by apply IH.
Qed.

Lemma elem_of_enumerate {A : Type} (xs : list A) (i : nat) :
  (i < length xs)%nat -> exists x, (Z.of_nat i, x) ∈ enumerate xs.
Proof.
  intros Hi. destruct (lookup_lt_is_Some_2 xs i Hi) as [x Hx].
  exists x. unfold enumerate.
  apply (elem_of_lookup_imap_2 (fun i x => (Z.of_nat i, x))), Hx.
Qed.

Lemma untouched_new_cell s t d : untouched (new_cell s t d).
Proof. unfold untouched, new_cell; simpl. repeat split; lra. Qed.

Lemma _initialize_grid_untouched : map_Forall (fun _ c => untouched c) _initialize_grid.
Proof.
  unfold _initialize_grid.
  set (Q := fun g : grid => map_Forall (fun _ c => untouched c) g).
  apply (fold_left_preserves Q); [|apply map_Forall_empty].
  intros g [i s] Hg. apply (fold_left_preserves Q); [|done].
  clear g Hg. intros g [j t] Hg. apply (fold_left_preserves Q); [|done].
  clear g Hg. intros g [k d] Hg.
  apply map_Forall_insert_2; [apply untouched_new_cell|done].
Qed.

Lemma _initialize_grid_lookup (i j k : nat) :
  (i < 6)%nat -> (j < 10)%nat -> (k < 10)%nat ->
  is_Some (_initialize_grid !! (Z.of_nat i, Z.of_nat j, Z.of_nat k)).
Proof.
  intros Hi Hj Hk.
  destruct (elem_of_enumerate scale_bins i) as [s Hs]; [done|].
  destruct (elem_of_enumerate temp_bins j) as [t Ht].
  { unfold temp_bins, linspace. by rewrite length_map, length_seq. }
  destruct (elem_of_enumerate density_bins k) as [d Hd].
  { unfold density_bins, linspace. by rewrite length_map, length_seq. }
  assert (Hins : forall (g : grid) key c key',
             is_Some (g !! key') -> is_Some (<[key := c]> g !! key')).
  { intros. apply lookup_insert_is_Some'. by right. }
  unfold _initialize_grid.
  set (Q := fun g : grid => is_Some (g !! (Z.of_nat i, Z.of_nat j, Z.of_nat k))).
  apply (fold_left_establishes Q _ _ _ _ Hs).
  - intros g. apply (fold_left_establishes Q _ _ _ _ Ht).
    + intros g'. apply (fold_left_establishes Q _ _ _ _ Hd).
      * intros g''. apply lookup_insert_is_Some'. by left.
      * intros g'' [k' d']. apply Hins.
    + intros g' [j' t'] Hg'. apply (fold_left_preserves Q); [|done].
      intros g'' [k' d']. apply Hins.
  - intros g [i' s'] Hg. apply (fold_left_preserves Q); [|done].
    intros g' [j' t'] Hg'. apply (fold_left_preserves Q); [|done].
    intros g'' [k' d']. apply Hins.
Qed.

(** *** Keys *)

Lemma argmin_from_bound best best_i i xs :
  (best_i < i)%nat -> (argmin_from best best_i i xs < i + length xs)%nat.
Proof.
  revert best best_i i. induction xs as [|x xs IH]; intros best best_i i Hi; simpl.
  - lia.
  - destruct (Rlt_dec x best).
    + specialize (IH x i (S i)). lia.
    + specialize (IH best best_i (S i)). lia.
Qed.

Lemma argmin_bound xs : xs <> [] -> (argmin xs < length xs)%nat.
Proof.
  destruct xs as [|x xs]; [done|]. intros _. simpl.
  pose proof (argmin_from_bound x 0 1 xs). lia.
Qed.

Lemma _get_cell_key_in_grid scale temp density :
  exists i j k : nat,
    _get_cell_key scale temp density = (Z.of_nat i, Z.of_nat j, Z.of_nat k)
    /\ (i < 6)%nat /\ (j < 10)%nat /\ (k < 10)%nat.
Proof.
  unfold _get_cell_key. do 3 eexists. split; [reflexivity|].
  repeat split.
  - apply (argmin_bound (map _ scale_bins)). done.
  - pose proof (argmin_bound (map (fun t => Rabs (t - temp)) temp_bins)) as H.
    unfold temp_bins, linspace in *. rewrite !length_map, length_seq in H.
    by apply H.
  - pose proof (argmin_bound (map (fun d => Rabs (d - density)) density_bins)) as H.
    unfold density_bins, linspace in *. rewrite !length_map, length_seq in H.
    by apply H.
Qed.

Lemma _initialize_grid_has_key scale temp density :
  is_Some (_initialize_grid !! _get_cell_key scale temp density).
Proof.
  destruct (_get_cell_key_in_grid scale temp density)
    as (i & j & k & -> & Hi & Hj & Hk).
  by apply _initialize_grid_lookup.
Qed.

(** *** One call of [record_run] *)

Lemma record_run_failure cells sc tp dn e cell :
  cells !! _get_cell_key sc tp dn = Some cell ->
  record_run cells sc tp dn false e
  = (<[_get_cell_key sc tp dn := recorded_failure cell]> cells, Ok ()).
Proof. intros H. unfold record_run. by rewrite H. Qed.

Lemma record_run_success cells sc tp dn e cell :
  cells !! _get_cell_key sc tp dn = Some cell ->
  (n_success cell + 1 <> 0)%Z ->
  record_run cells sc tp dn true e
  = (<[_get_cell_key sc tp dn := recorded_success cell e]> cells, Ok ()).
Proof.
  intros H Hn. unfold record_run. rewrite H. simpl.
  assert (IZR (n_success cell + 1) <> 0) as Hn' by (by apply not_0_IZR).
  unfold fdiv. destruct (Req_dec_T (IZR (n_success cell + 1)) 0); [done|].
  simpl. destruct (Req_dec_T (IZR (n_success cell + 1)) 0); done.
Qed.

(** *** The incremental statistics are the batch statistics *)

Lemma sum_R_app xs ys : sum_R (xs ++ ys) = sum_R xs + sum_R ys.
Proof. induction xs as [|x xs IH]; simpl; [lra|]. rewrite IH. lra. Qed.

Lemma sum_sq_dev xs m :
  sum_R (map (fun x => (x - m) ^ 2) xs)
  = sum_R (map (fun x => x ^ 2) xs) - 2 * m * sum_R xs + INR (length xs) * m ^ 2.
Proof.
  induction xs as [|x xs IH]; [simpl; lra|].
  cbn [map sum_R fold_right length]. fold (sum_R (map (fun x => (x - m) ^ 2) xs)).
  fold (sum_R (map (fun x => x ^ 2) xs)). fold (sum_R xs).
  rewrite IH, S_INR. ring.
Qed.

Lemma sum_sq_dev_nonneg xs m : 0 <= sum_R (map (fun x => (x - m) ^ 2) xs).
Proof.
  induction xs as [|x xs IH]; simpl; [lra|].
  fold (sum_R (map (fun x => (x - m) ^ 2) xs)).
  pose proof (pow2_ge_0 (x - m)). simpl in *. lra.
Qed.

Lemma welford_identity S1 S2 N e :
  0 < N ->
  let m := S1 / N in
  let m' := m + (e - m) / (N + 1) in
  m' = (S1 + e) / (N + 1)
  /\ ((S2 - 2 * m * S1 + N * m ^ 2) / N * N + (e - m) * (e - m')) / (N + 1)
     = (S2 + e ^ 2 - 2 * m' * (S1 + e) + (N + 1) * m' ^ 2) / (N + 1).
Proof. intros HN m m'. subst m m'. split; field; lra. Qed.

Lemma batch_mean_snoc es e :
  es <> [] ->
  batch_mean es + (e - batch_mean es) / (INR (length es) + 1) = batch_mean (es ++ [e]).
Proof.
  intros Hes. unfold batch_mean.
  assert (0 < INR (length es)).
  { apply lt_0_INR. destruct es; [done|simpl; lia]. }
  rewrite sum_R_app, length_app, plus_INR. simpl.
  destruct (welford_identity (sum_R es) 0 (INR (length es)) e) as [-> _]; [done|].
  f_equal. lra.
Qed.

(** The argument of the square root in [record_run] is the mean squared
    deviation of the energies recorded so far (so it is never negative). *)
Lemma welford_radicand c es e :
  summarises c es ->
  let n := (n_success c + 1)%Z in
  let mean' := mean_energy c + (e - mean_energy c) / IZR n in
  IZR n = INR (length (es ++ [e]))
  /\ mean' = batch_mean (es ++ [e])
  /\ (std_energy c ^ 2 * IZR (n - 1) + (e - mean_energy c) * (e - mean')) / IZR n
     = sum_R (map (fun x => (x - batch_mean (es ++ [e])) ^ 2) (es ++ [e]))
       / INR (length (es ++ [e])).
Proof.
  intros (Hn & Hempty & Hfull) n mean'. subst n mean'.
  assert (IZR (n_success c + 1) = INR (length es) + 1) as En.
  { rewrite Hn, plus_IZR, <- INR_IZR_INZ. done. }
  assert (IZR (n_success c + 1 - 1) = INR (length es)) as En1.
  { rewrite Hn, INR_IZR_INZ. f_equal. lia. }
  rewrite En, En1. rewrite (length_app es [e]), plus_INR. simpl (INR (length [e])).
  split; [done|].
  assert (es = [] \/ es <> []) as [->|Hne] by (destruct es; [by left|by right]).
  - destruct Hempty as [-> ->]; [done|].
    unfold batch_mean. simpl. split; field.
  - destruct (Hfull Hne) as [Hm Hs].
    assert (0 < INR (length es)) as Hpos.
    { apply lt_0_INR. destruct es; [done|simpl; lia]. }
    pose proof (batch_mean_snoc es e Hne) as Hmean.
    rewrite Hm. split; [done|].
    rewrite <- Hmean.
    rewrite Hs. unfold batch_std. rewrite pow2_sqrt.
    2:{ apply Rmult_le_pos; [apply sum_sq_dev_nonneg|].
        left. by apply Rinv_0_lt_compat. }
    rewrite !sum_sq_dev, map_app, !sum_R_app, length_app, plus_INR.
    unfold batch_mean. simpl (sum_R [e]). simpl (sum_R (map _ [e])).
    simpl (INR (length [e])).
    destruct (welford_identity (sum_R es) (sum_R (map (fun x => x ^ 2) es))
                (INR (length es)) e Hpos) as [_ Hid].
    cbv zeta in Hid. rewrite Hid. f_equal. ring.
Qed.

Lemma summarises_recorded_success c es e :
  summarises c es -> summarises (recorded_success c e) (es ++ [e]).
Proof.
  intros Hc. destruct (welford_radicand c es e Hc) as (Hn & Hmean & Hrad).
  destruct Hc as (Hlen & _).
  cbv zeta in Hn, Hmean, Hrad.
  unfold summarises, recorded_success. cbn [n_success mean_energy std_energy].
  split; [rewrite length_app; simpl; lia|].
  split; [by destruct es|]. intros _.
  split; [done|]. unfold batch_std. by rewrite Hrad.
Qed.

Lemma summarises_recorded_failure c es :
  summarises c es -> summarises (recorded_failure c) es.
Proof. done. Qed.

(** *** Sequences of runs *)

Lemma successful_energies_snoc k runs r :
  successful_energies k (runs ++ [r])
  = (successful_energies k runs
     ++ (if run_success r && bool_decide (run_key r = k) then [run_energy r] else []))%list.
Proof.
  unfold successful_energies. rewrite List.filter_app, map_app. simpl.
  by destruct (run_success r && bool_decide (run_key r = k)).
Qed.

Lemma failed_runs_snoc k runs r :
  failed_runs k (runs ++ [r])
  = failed_runs k runs
    ++ (if negb (run_success r) && bool_decide (run_key r = k) then [r] else []).
Proof.
  unfold failed_runs. rewrite List.filter_app. simpl.
  by destruct (negb (run_success r) && bool_decide (run_key r = k)).
Qed.

Lemma tracks_initial : tracks _initialize_grid [].
Proof.
  split; [apply _initialize_grid_has_key|].
  intros k c Hc. apply _initialize_grid_untouched in Hc.
  destruct Hc as (Hr & Hs & Hf & Hm & Hd & _).
  unfold summarises, counters_consistent. simpl. rewrite Hr, Hs, Hf. done.
Qed.

Lemma record_run_tracks g runs r :
  tracks g runs ->
  exists g',
    record_run g (run_scale r) (run_temp r) (run_density r) (run_success r)
               (run_energy r) = (g', Ok ())
    /\ tracks g' (runs ++ [r]).
Proof.
  intros [Hdom Hcells].
  destruct (Hdom (run_scale r) (run_temp r) (run_density r)) as [c Hc].
  destruct (Hcells _ _ Hc) as (Hsum & Hfail & Hcons).
  destruct (run_success r) eqn:Hsucc.
  - eexists. split.
    { apply record_run_success; [done|]. destruct Hsum as [-> _]. lia. }
    split; [intros; apply lookup_insert_is_Some'; by right|].
    intros k c' Hk.
    rewrite successful_energies_snoc, failed_runs_snoc, Hsucc.
    cbn [negb andb]. rewrite app_nil_r.
    fold (run_key r) in Hk.
    destruct (decide (run_key r = k)) as [<-|Hne].
    + rewrite lookup_insert_eq in Hk. injection Hk as <-.
      rewrite bool_decide_eq_true_2 by done.
      split; [by apply summarises_recorded_success|].
      unfold counters_consistent, recorded_success in *. simpl.
      split; [exact Hfail|lia].
    + rewrite lookup_insert_ne in Hk by done.
      rewrite bool_decide_eq_false_2, app_nil_r by done. by apply Hcells.
  - eexists. split; [by apply record_run_failure|].
    split; [intros; apply lookup_insert_is_Some'; by right|].
    intros k c' Hk.
    rewrite successful_energies_snoc, failed_runs_snoc, Hsucc.
    cbn [negb andb]. rewrite app_nil_r.
    fold (run_key r) in Hk.
    destruct (decide (run_key r = k)) as [<-|Hne].
    + rewrite lookup_insert_eq in Hk. injection Hk as <-.
      rewrite bool_decide_eq_true_2 by done.
      split; [by apply summarises_recorded_failure|].
      unfold counters_consistent, recorded_failure in *.
      rewrite length_app. simpl. unfold run_key. split; lia.
    + rewrite lookup_insert_ne in Hk by done.
      rewrite bool_decide_eq_false_2, app_nil_r by done. by apply Hcells.
Qed.

Lemma record_runs_tracks runs : forall g recorded,
  tracks g recorded ->
  exists g', record_runs g runs = (g', Ok ()) /\ tracks g' (recorded ++ runs).
Proof.
  induction runs as [|r runs IH]; intros g recorded Hg; simpl.
  - exists g. by rewrite app_nil_r.
  - destruct (record_run_tracks g recorded r Hg) as (g1 & -> & Hg1).
    destruct (IH g1 (recorded ++ [r]) Hg1) as (g' & -> & Hg').
    exists g'. by rewrite <- app_assoc in Hg'.
Qed.

(** C5. Whatever runs are recorded into a fresh grid, no call raises, and
    afterwards every cell counts in [n_success] the successful runs that
    fell in it and, when there is at least one, holds in [mean_energy] and
    [std_energy] the batch mean and the batch (population) standard
    deviation of exactly their energies. *)
Theorem record_run_statistics (runs : list Run) :
  exists cells,
    record_runs _initialize_grid runs = (cells, Ok ())
    /\ forall k cell,
        cells !! k = Some cell ->
        let energies := successful_energies k runs in
        n_success cell = Z.of_nat (length energies)
        /\ (energies <> [] ->
            mean_energy cell = batch_mean energies
            /\ std_energy cell = batch_std energies).
Proof.
  destruct (record_runs_tracks runs _ [] tracks_initial) as (cells & E & _ & Hcells).
  exists cells. split; [done|].
  intros k cell Hk. destruct (Hcells k cell Hk) as [(Hn & _ & Hfull) _].
  split; [exact Hn|exact Hfull].
Qed.

(** Two successful runs of energies 1 and 3 and a failed one, all in the
    first cell: two successes, mean 2, deviation 1. *)
Example record_three_runs :
  let runs := [mkRun 2 50 0.001 true 1; mkRun 2 50 0.001 false 7;
               mkRun 2 50 0.001 true 3] in
  exists cells cell,
    record_runs _initialize_grid runs = (cells, Ok ())
    /\ cells !! _get_cell_key 2 50 0.001 = Some cell
    /\ n_runs cell = 3%Z /\ n_success cell = 2%Z /\ n_failures cell = 1%Z
    /\ mean_energy cell = 2 /\ std_energy cell = 1.
Proof.
  intros runs.
  destruct (record_runs_tracks runs _ [] tracks_initial) as (cells & E & Hdom & Hcells).
  destruct (Hdom 2%Z 50 0.001) as [cell Hcell].
  exists cells, cell. split; [done|]. split; [done|].
  destruct (Hcells _ _ Hcell) as ((Hn & _ & Hfull) & Hfail & Hcons).
  assert (successful_energies (_get_cell_key 2 50 0.001) runs = [1; 3]) as Hes.
  { unfold successful_energies, runs, run_key. cbn [List.filter map run_success
      run_scale run_temp run_density run_energy andb].
    by rewrite !bool_decide_eq_true_2. }
  assert (length (failed_runs (_get_cell_key 2 50 0.001) runs) = 1%nat) as Hfl.
  { unfold failed_runs, runs, run_key. cbn [List.filter run_success
      run_scale run_temp run_density negb andb].
    by rewrite !bool_decide_eq_true_2. }
  cbn [app] in *. rewrite Hes in *. rewrite Hfl in Hfail.
  destruct Hfull as [Hm Hs]; [done|].
  unfold counters_consistent in Hcons. cbn [length] in Hn.
  split; [lia|]. split; [lia|]. split; [lia|]. split.
  - rewrite Hm. unfold batch_mean. simpl. lra.
  - rewrite Hs. unfold batch_std, batch_mean. simpl.
    replace (_ / _) with 1 by lra. apply sqrt_1.
Qed.

(** C9. Recording a failed run in a cell adds one to its [n_runs] and to
    its [n_failures] and changes nothing else: [mean_energy] and
    [std_energy] (and [n_success]) are as before, and so is every other
    cell. *)
Theorem record_run_failed_run cells sc tp dn e cell :
  cells !! _get_cell_key sc tp dn = Some cell ->
  exists cell',
    record_run cells sc tp dn false e
    = (<[_get_cell_key sc tp dn := cell']> cells, Ok ())
    /\ n_runs cell' = (n_runs cell + 1)%Z
    /\ n_failures cell' = (n_failures cell + 1)%Z
    /\ n_success cell' = n_success cell
    /\ mean_energy cell' = mean_energy cell
    /\ std_energy cell' = std_energy cell
    /\ max_mismatch cell' = max_mismatch cell.
Proof.
  intros H. exists (recorded_failure cell).
  split; [by apply record_run_failure|done].
Qed.

Lemma record_run_failed_run_witness :
  exists cell cell',
    _initialize_grid !! _get_cell_key 2 50 0.001 = Some cell
    /\ record_run _initialize_grid 2 50 0.001 false 0
       = (<[_get_cell_key 2 50 0.001 := cell']> _initialize_grid, Ok ())
    /\ n_runs cell' = (n_runs cell + 1)%Z
    /\ n_failures cell' = (n_failures cell + 1)%Z
    /\ n_success cell' = n_success cell
    /\ mean_energy cell' = mean_energy cell
    /\ std_energy cell' = std_energy cell
    /\ max_mismatch cell' = max_mismatch cell.
Proof.
  destruct (_initialize_grid_has_key 2 50 0.001) as [cell Hcell].
  destruct (record_run_failed_run _initialize_grid 2 50 0.001 0 cell Hcell)
    as (cell' & H).
  exists cell, cell'. by split.
Defined.

(** C10. In the freshly initialised grid every cell has
    [n_runs = n_success + n_failures], and every call of [record_run],
    successful or failed, returning or raising, keeps it so. *)
Theorem counters_consistent_invariant :
  map_Forall (fun _ c => counters_consistent c) _initialize_grid
  /\ forall cells sc tp dn success e cells' outcome,
      map_Forall (fun _ c => counters_consistent c) cells ->
      record_run cells sc tp dn success e = (cells', outcome) ->
      map_Forall (fun _ c => counters_consistent c) cells'.
Proof.
  split.
  { intros k c Hc. by destruct (proj2 tracks_initial k c Hc) as (_ & _ & ?). }
  intros cells sc tp dn success e cells' outcome Hall.
  unfold record_run.
  destruct (cells !! _get_cell_key sc tp dn) as [cell|] eqn:Hcell;
    [|by intros [= <- _]].
  pose proof (Hall _ _ Hcell) as Hc. unfold counters_consistent in Hc.
  destruct success; simpl; unfold fdiv;
    repeat (destruct (Req_dec_T _ _); simpl);
    intros [= <- _]; (apply map_Forall_insert_2; [|done]);
    unfold counters_consistent; simpl; lia.
Qed.

Lemma counters_consistent_invariant_witness :
  map_Forall (fun _ c => counters_consistent c)
             (record_run _initialize_grid 2 50 0.001 true 1).1.
Proof.
  destruct counters_consistent_invariant as [Hinit Hstep].
  destruct (record_run _initialize_grid 2 50 0.001 true 1) as [cells' outcome] eqn:E.
  exact (Hstep _ _ _ _ _ _ _ _ Hinit E).
Defined.

(** *** Gap identification *)

Lemma same_but_mismatch_refl c : same_but_mismatch c c.
Proof. by repeat split. Qed.

Lemma same_but_mismatch_trans c1 c2 c3 :
  same_but_mismatch c1 c2 -> same_but_mismatch c2 c3 -> same_but_mismatch c1 c3.
Proof. unfold same_but_mismatch. intros H1 H2. intuition congruence. Qed.

Lemma frames_refl g : frames g g.
Proof.
  intros k. destruct (g !! k); constructor. apply same_but_mismatch_refl.
Qed.

Lemma frames_trans g1 g2 g3 : frames g1 g2 -> frames g2 g3 -> frames g1 g3.
Proof.
  intros H12 H23 k. specialize (H12 k). specialize (H23 k).
  destruct H12 as [c1 c2 H12|]; inversion H23; subst; constructor.
  by eapply same_but_mismatch_trans.
Qed.

Lemma mismatch_step_frames g ijk : frames g (mismatch_step g ijk).
Proof.
  unfold mismatch_step.
  destruct (g !! ijk) as [cell|] eqn:Hcell; [|apply frames_refl].
  destruct (n_success cell <? 2)%Z; [apply frames_refl|].
  destruct (omap (mismatch_with g cell) (neighbors ijk)) as [|m ms];
    [apply frames_refl|].
  intros k. destruct (decide (ijk = k)) as [<-|Hne].
  - rewrite lookup_insert_eq, Hcell. constructor. by repeat split.
  - rewrite lookup_insert_ne by done. apply frames_refl.
Qed.

(** [compute_mismatches] writes [max_mismatch] and nothing else. *)
Lemma compute_mismatches_frames g : frames g (compute_mismatches g).
Proof.
  unfold compute_mismatches.
  apply (map_fold_weak_ind (fun (r : grid) (_ : grid) => frames g r)).
  - apply frames_refl.
  - intros ijk _ _ r _ Hr. eapply frames_trans; [done|]. apply mismatch_step_frames.
Qed.

Lemma insert_gap_perm x l : insert_gap x l ≡ₚ x :: l.
Proof.
  induction l as [|y l IH]; simpl; [done|].
  destruct (gap_key_lt x.2 y.2); [done|]. rewrite IH. apply perm_swap.
Qed.

Lemma sort_gaps_perm l : sort_gaps l ≡ₚ l.
Proof.
  unfold sort_gaps.
  assert (H : forall acc, fold_left (fun acc x => insert_gap x acc) l acc ≡ₚ acc ++ l).
  { induction l as [|x l IH]; intros acc; simpl.
    - by rewrite app_nil_r.
    - rewrite IH, insert_gap_perm. simpl. apply Permutation_middle. }
  apply (H []).
Qed.

(** The gap list holds the cells of the refreshed grid that are sparse or
    of high mismatch. *)
Lemma elem_of_identify_gaps cells sparse_threshold mismatch_threshold k c :
  (k, c) ∈ (identify_gaps cells sparse_threshold mismatch_threshold).2
  <-> compute_mismatches cells !! k = Some c
      /\ is_sparse c sparse_threshold || is_high_mismatch c mismatch_threshold = true.
Proof.
  unfold identify_gaps. simpl.
  rewrite sort_gaps_perm, list_elem_of_In, filter_In, <- list_elem_of_In.
  by rewrite elem_of_map_to_list.
Qed.

(** C6. [identify_gaps] refreshes [max_mismatch] and leaves the rest of
    every cell alone; a cell whose [n_runs] is below the sparse threshold
    is in the list it returns, and a cell whose [n_runs] has reached the
    threshold and whose (refreshed) [max_mismatch] is below the mismatch
    threshold is not.  The thresholds are arbitrary, 10 and 0.5 included. *)
Theorem identify_gaps_selection cells sparse_threshold mismatch_threshold k cell :
  cells !! k = Some cell ->
  exists cell',
    (identify_gaps cells sparse_threshold mismatch_threshold).1 !! k = Some cell'
    /\ same_but_mismatch cell cell'
    /\ ((n_runs cell < sparse_threshold)%Z ->
        (k, cell') ∈ (identify_gaps cells sparse_threshold mismatch_threshold).2)
    /\ ((sparse_threshold <= n_runs cell)%Z ->
        max_mismatch cell' < mismatch_threshold ->
        forall c, (k, c) ∉ (identify_gaps cells sparse_threshold mismatch_threshold).2).
Proof.
  intros Hcell. pose proof (compute_mismatches_frames cells k) as Hk.
  rewrite Hcell in Hk. inversion Hk as [? cell' Hsame E1 E2|]; subst.
  symmetry in E2. exists cell'. split; [done|]. split; [done|].
  assert (n_runs cell' = n_runs cell) as Hruns by (symmetry; apply Hsame).
  split.
  - intros Hsparse. apply elem_of_identify_gaps. split; [done|].
    unfold is_sparse. rewrite Hruns.
    by rewrite (proj2 (Z.ltb_lt _ _) Hsparse).
  - intros Hfull Hlow c Hc. apply elem_of_identify_gaps in Hc as [Hc Hflag].
    rewrite E2 in Hc. injection Hc as <-.
    unfold is_sparse, is_high_mismatch in Hflag. rewrite Hruns in Hflag.
    rewrite (proj2 (Z.ltb_ge _ _) Hfull) in Hflag. simpl in Hflag.
    destruct (Rlt_dec mismatch_threshold (max_mismatch cell')); [lra|done].
Qed.

Lemma identify_gaps_selection_witness :
  exists cell cell',
    _initialize_grid !! _get_cell_key 2 50 0.001 = Some cell
    /\ (identify_gaps _initialize_grid default_sparse_threshold
                      default_mismatch_threshold).1
       !! _get_cell_key 2 50 0.001 = Some cell'
    /\ same_but_mismatch cell cell'
    /\ (_get_cell_key 2 50 0.001, cell')
       ∈ (identify_gaps _initialize_grid default_sparse_threshold
                        default_mismatch_threshold).2.
Proof.
  destruct (_initialize_grid_has_key 2 50 0.001) as [cell Hcell].
  destruct (identify_gaps_selection _initialize_grid default_sparse_threshold
              default_mismatch_threshold _ cell Hcell)
    as (cell' & Hcell' & Hsame & Hin & _).
  exists cell, cell'.
  split; [exact Hcell|]. split; [exact Hcell'|]. split; [exact Hsame|].
  apply Hin. apply _initialize_grid_untouched in Hcell as [-> _].
  unfold default_sparse_threshold. lia.
Defined.

End GapTargeterSpec.



(** ** More on the classifier *)

Module ClassificationExtra.
Import Classification Ranking.

(** The list that [classify] has built before it sorts. *)
Lemma elem_of_classify element_counts c :
  c ∈ classify element_counts <->
  let elts := dom element_counts in
  _detect_organometallic elts element_counts = Some c
  \/ _detect_perfluorinated element_counts = Some c
  \/ _detect_semiconductor elts element_counts = Some c
  \/ _detect_superalloy elts element_counts = Some c
  \/ _detect_super_acid elts element_counts = Some c
  \/ _detect_super_base elts element_counts = Some c
  \/ _detect_explosive elts element_counts = Some c.
Proof.
  unfold classify. rewrite ClassificationSpec.elem_of_sort_by_bonus_desc.
  rewrite !ClassificationSpec.elem_of_append_if, elem_of_nil. simpl. tauto.
Qed.

Ltac detector_inv H :=
  repeat case_match; try discriminate H; injection H as <-.

Lemma _detect_organometallic_Some elts counts c :
  _detect_organometallic elts counts = Some c ->
  label c = "organometallic" /\ bonus c = 1.0%Q /\ confidence c = 1.0%Q
  /\ "C" ∈ elts /\ exists m, m ∈ elts /\ m ∈ metals.
Proof.
  unfold _detect_organometallic, mem, nonempty. intros H.
  destruct (bool_decide ("C" ∈ elts)) eqn:HC; [|discriminate H].
  destruct (bool_decide (elts ∩ metals ≠ ∅)) eqn:HM; [|discriminate H].
  injection H as <-. apply bool_decide_eq_true in HC, HM.
  repeat split; try done.
  apply set_choose_L in HM as [m Hm]. exists m. set_solver.
Qed.

Lemma _detect_perfluorinated_Some counts c :
  _detect_perfluorinated counts = Some c ->
  label c = "perfluorinated" /\ bonus c = 0.8%Q /\ confidence c = 1.0%Q.
Proof. unfold _detect_perfluorinated. intros H. by detector_inv H. Qed.

Lemma _detect_semiconductor_Some elts counts c :
  _detect_semiconductor elts counts = Some c ->
  label c = "semiconductor" /\ bonus c = 0.7%Q
  /\ (confidence c = 1.0%Q \/ confidence c = 0.9%Q).
Proof.
  unfold _detect_semiconductor. intros H. detector_inv H; simpl; auto.
Qed.

Lemma _detect_superalloy_Some elts counts c :
  _detect_superalloy elts counts = Some c ->
  label c = "metallic_superalloy" /\ bonus c = 0.6%Q /\ confidence c = 0.8%Q.
Proof. unfold _detect_superalloy. intros H. by detector_inv H. Qed.

Lemma _detect_super_acid_Some elts counts c :
  _detect_super_acid elts counts = Some c ->
  label c = "organic_super_acid" /\ bonus c = 0.5%Q /\ confidence c = 0.7%Q.
Proof. unfold _detect_super_acid. intros H. by detector_inv H. Qed.

Lemma _detect_super_base_Some elts counts c :
  _detect_super_base elts counts = Some c ->
  label c = "organic_super_base" /\ bonus c = 0.5%Q /\ confidence c = 0.7%Q
  /\ "C" ∈ elts
  /\ ((2 <= get0 counts "N")%Z \/ exists m, m ∈ elts /\ m ∈ metals).
Proof.
  unfold _detect_super_base, mem, nonempty. intros H.
  destruct (bool_decide ("C" ∈ elts)) eqn:HC; [|discriminate H].
  destruct (bool_decide ("N" ∈ elts)) eqn:HN; [|discriminate H].
  simpl in H. apply bool_decide_eq_true in HC.
  destruct (Z.leb_spec 2 (get0 counts "N")) as [Hge|Hlt]; simpl in H.
  { injection H as <-. repeat split; auto. }
  destruct (bool_decide (elts ∩ metals ≠ ∅)) eqn:HM; [|discriminate H].
  injection H as <-. apply bool_decide_eq_true in HM.
  repeat split; try done. right.
  apply set_choose_L in HM as [m Hm]. exists m. set_solver.
Qed.

Lemma _detect_explosive_Some elts counts c :
  _detect_explosive elts counts = Some c ->
  label c = "explosive" /\ bonus c = 0.3%Q
  /\ (confidence c = 0.6%Q \/ confidence c = 0.5%Q).
Proof.
  unfold _detect_explosive. intros H. detector_inv H; simpl; auto.
Qed.

(** Each classification in the output carries the label and the bonus of
    the rule that produced it. *)
Lemma classify_rule element_counts c :
  c ∈ classify element_counts ->
  (label c, bonus c) ∈ [("organometallic", 1.0%Q); ("perfluorinated", 0.8%Q);
                        ("semiconductor", 0.7%Q); ("metallic_superalloy", 0.6%Q);
                        ("organic_super_acid", 0.5%Q); ("organic_super_base", 0.5%Q);
                        ("explosive", 0.3%Q)]
  /\ (0.5 <= confidence c <= 1.0)%Q.
Proof.
  rewrite elem_of_classify. simpl. intros H.
  repeat destruct H as [H|H];
    [apply _detect_organometallic_Some in H as (-> & -> & -> & _)
    |apply _detect_perfluorinated_Some in H as (-> & -> & ->)
    |apply _detect_semiconductor_Some in H as (-> & -> & [-> | ->])
    |apply _detect_superalloy_Some in H as (-> & -> & ->)
    |apply _detect_super_acid_Some in H as (-> & -> & ->)
    |apply _detect_super_base_Some in H as (-> & -> & -> & _)
    |apply _detect_explosive_Some in H as (-> & -> & [-> | ->])];
    (split; [set_solver|split; by apply Qle_bool_iff]).
Qed.

Lemma insert_desc_sorted c l :
  StronglySorted bonus_desc l -> StronglySorted bonus_desc (insert_desc c l).
Proof.
  induction 1 as [|d l Hl IH Hd]; simpl.
  - repeat constructor.
  - destruct (Qle_bool (bonus c) (bonus d)) eqn:E.
    + constructor; [done|].
      rewrite ClassificationSpec.insert_desc_perm. constructor; [|done].
      by apply Qle_bool_iff.
    + assert (bonus d <= bonus c)%Q as Hdc.
      { apply Qlt_le_weak, Qnot_le_lt. intros Hle.
        apply Qle_bool_iff in Hle. congruence. }
      constructor; [by constructor|]. constructor; [done|].
      eapply Forall_impl; [exact Hd|]. intros x Hx. unfold bonus_desc in *.
      by eapply Qle_trans.
Qed.

(** X1. The list returned by [classify] is sorted by bonus, highest first:
    every classification has a bonus at least as large as each one listed
    after it. *)
Theorem classify_sorted_by_bonus element_counts :
  StronglySorted bonus_desc (classify element_counts).
Proof.
  unfold classify, sort_by_bonus_desc.
  generalize (append_if
    (append_if (append_if (append_if (append_if (append_if (append_if []
      (_detect_organometallic (dom element_counts) element_counts))
      (_detect_perfluorinated element_counts))
      (_detect_semiconductor (dom element_counts) element_counts))
      (_detect_superalloy (dom element_counts) element_counts))
      (_detect_super_acid (dom element_counts) element_counts))
      (_detect_super_base (dom element_counts) element_counts))
      (_detect_explosive (dom element_counts) element_counts)).
  intros l.
  assert (H : forall acc, StronglySorted bonus_desc acc ->
            StronglySorted bonus_desc
              (fold_left (fun acc c => insert_desc c acc) l acc)).
  { induction l as [|c l IH]; intros acc Hacc; simpl; [done|].
    by apply IH, insert_desc_sorted. }
  apply H. constructor.
Qed.

(** X2. The converse of the organometallic rule: [classify] reports
    [organometallic] for a composition exactly when carbon and at least one
    element of the metal set are among its keys. *)
Theorem classify_organometallic_iff (element_counts : gmap string Z) :
  labelled element_counts "organometallic"
  <-> "C" ∈ dom element_counts
      /\ exists m, m ∈ dom element_counts /\ m ∈ metals.
Proof.
  split.
  - intros (c & Hc & Hlabel). apply elem_of_classify in Hc. simpl in Hc.
    repeat destruct Hc as [Hc|Hc];
      [by apply _detect_organometallic_Some in Hc as (_ & _ & _ & ? & ?)
      |apply _detect_perfluorinated_Some in Hc as (Hl & _)
      |apply _detect_semiconductor_Some in Hc as (Hl & _)
      |apply _detect_superalloy_Some in Hc as (Hl & _)
      |apply _detect_super_acid_Some in Hc as (Hl & _)
      |apply _detect_super_base_Some in Hc as (Hl & _)
      |apply _detect_explosive_Some in Hc as (Hl & _)];
      rewrite Hl in Hlabel; discriminate Hlabel.
  - intros (HC & m & Hm & Hmetal).
    destruct (ClassificationSpec._detect_organometallic_fires
                (dom element_counts) element_counts m HC Hm Hmetal)
      as (c & Hc & Hl & _).
    exists c. split; [|done]. apply elem_of_classify. by left.
Qed.

Lemma append_if_labels l x (ls : list string) lbl :
  map label l `sublist_of` ls ->
  (forall c, x = Some c -> label c = lbl) ->
  map label (append_if l x) `sublist_of` (ls ++ [lbl])%list.
Proof.
  intros Hl Hx. destruct x as [c|]; simpl.
  - rewrite map_app. simpl. rewrite (Hx c eq_refl). by apply sublist_app.
  - by apply sublist_inserts_r.
Qed.

Lemma classify_labels_perm element_counts :
  exists l, map label (classify element_counts) ≡ₚ l /\ l `sublist_of` rule_labels.
Proof.
  unfold classify. eexists. split.
  { apply Permutation_map, ClassificationSpec.sort_by_bonus_desc_perm. }
  change rule_labels with
    (((((((([] ++ ["organometallic"]) ++ ["perfluorinated"]) ++ ["semiconductor"])
          ++ ["metallic_superalloy"]) ++ ["organic_super_acid"])
        ++ ["organic_super_base"]) ++ ["explosive"]))%list.
  repeat apply append_if_labels; [done|..].
  - intros c H. by apply _detect_organometallic_Some in H as (? & _).
  - intros c H. by apply _detect_perfluorinated_Some in H as (? & _).
  - intros c H. by apply _detect_semiconductor_Some in H as (? & _).
  - intros c H. by apply _detect_superalloy_Some in H as (? & _).
  - intros c H. by apply _detect_super_acid_Some in H as (? & _).
  - intros c H. by apply _detect_super_base_Some in H as (? & _).
  - intros c H. by apply _detect_explosive_Some in H as (? & _).
Qed.

(** X3. Each rule contributes at most once: the labels of the
    classifications returned by [classify] are pairwise distinct, they are
    among the seven rule labels, and so the list has at most seven entries. *)
Theorem classify_labels_distinct element_counts :
  NoDup (map label (classify element_counts))
  /\ (forall l, l ∈ map label (classify element_counts) -> l ∈ rule_labels)
  /\ (length (classify element_counts) <= 7)%nat.
Proof.
  destruct (classify_labels_perm element_counts) as (l & Hperm & Hsub).
  split; [|split].
  - rewrite Hperm. eapply sublist_NoDup; [|exact Hsub].
    apply (bool_decide_unpack _). by vm_compute.
  - intros x Hx. rewrite Hperm in Hx. by eapply elem_of_sublist.
  - rewrite <- (length_map label), Hperm.
    apply sublist_length in Hsub. simpl in Hsub. lia.
Qed.

(** X4. A super base that the rule admits for its metal rather than for its
    nitrogen count is an organometallic as well: when [organic_super_base]
    is reported for a composition with fewer than two nitrogen atoms,
    [organometallic] is reported too. *)
Theorem super_base_by_metal_is_organometallic (element_counts : gmap string Z) :
  labelled element_counts "organic_super_base" ->
  (get0 element_counts "N" < 2)%Z ->
  labelled element_counts "organometallic".
Proof.
  intros (c & Hc & Hlabel) HN. apply elem_of_classify in Hc. simpl in Hc.
  assert (_detect_super_base (dom element_counts) element_counts = Some c) as Hb.
  { repeat destruct Hc as [Hc|Hc]; [| | | | |done|];
      [apply _detect_organometallic_Some in Hc as (Hl & _)
      |apply _detect_perfluorinated_Some in Hc as (Hl & _)
      |apply _detect_semiconductor_Some in Hc as (Hl & _)
      |apply _detect_superalloy_Some in Hc as (Hl & _)
      |apply _detect_super_acid_Some in Hc as (Hl & _)
      |apply _detect_explosive_Some in Hc as (Hl & _)];
      rewrite Hl in Hlabel; discriminate Hlabel. }
  apply _detect_super_base_Some in Hb as (_ & _ & _ & HC & [Hge|(m & Hm & Hmetal)]);
    [lia|].
  destruct (ClassificationSpec._detect_organometallic_fires
              (dom element_counts) element_counts m HC Hm Hmetal)
    as (o & Ho & Hl & _).
  exists o. split; [|done]. apply elem_of_classify. by left.
Qed.

Lemma super_base_by_metal_is_organometallic_witness :
  labelled {[ "C" := 6%Z; "H" := 14%Z; "N" := 1%Z; "Li" := 1%Z ]} "organometallic".
Proof.
  apply super_base_by_metal_is_organometallic.
  - eexists. split.
    + apply elem_of_classify. do 5 right. left. vm_compute. reflexivity.
    + reflexivity.
  - by vm_compute.
Defined.

End ClassificationExtra.

(** ** More on the scorer *)

Module ScoringExtra.
Import Classification Scoring Composition Config FloatRange.
Import ScoringSpec.
Local Open Scope R_scope.

(** *** Sums over a composition *)

Lemma sum_values_empty : sum_values ∅ = 0%Z.
Proof. reflexivity. Qed.

Lemma sum_values_insert (m : gmap string Z) k v :
  m !! k = None -> sum_values (<[k := v]> m) = (sum_values m + v)%Z.
Proof.
  intros Hk. unfold sum_values.
  rewrite map_fold_insert_L; [done| |done]. intros. lia.
Qed.

Lemma metal_atoms_le_total element_counts :
  nonneg_counts element_counts ->
  (0 <= metal_atoms element_counts <= sum_values element_counts)%Z.
Proof.
  unfold metal_atoms, nonneg_counts.
  induction element_counts as [|k v m Hk IH] using map_ind.
  - rewrite map_filter_empty, sum_values_empty. lia.
  - intros Hall. apply map_Forall_insert in Hall as [Hv Hm]; [|done].
    specialize (IH Hm). rewrite sum_values_insert by done.
    destruct (decide (k ∈ metal_symbols)) as [Hmet|Hmet].
    + rewrite map_filter_insert_True by done.
      rewrite sum_values_insert; [lia|].
      apply map_lookup_filter_None. by left.
    + rewrite map_filter_insert_False by done.
      rewrite delete_id by done. lia.
Qed.

(** *** The factors for any sane configuration *)

Lemma compute_wN_sane self N :
  sane self -> exists w, compute_wN self N = Ok w /\ 0 <= w.
Proof.
  intros (H1 & H2 & Ha & Hb & _). unfold compute_wN.
  assert (forall s, s <> 0 -> 2 * s ^ 2 <> 0) as Hs.
  { intros s Hs E. assert (s * s = 0) as E' by (simpl in E; lra).
    by destruct (Rmult_integral _ _ E'). }
  rewrite !fdiv_ok by auto. unfold_py. eexists; split; [done|].
  apply Rplus_le_le_0_compat; (apply Rmult_le_pos; [done|left; apply exp_pos]).
Qed.

Lemma compute_wM_bounds self element_counts :
  0 <= alpha_metal self -> nonneg_counts element_counts ->
  exists w, compute_wM self element_counts = Ok w
            /\ 1 <= w <= 1 + alpha_metal self
            /\ (1 < w -> (0 < metal_atoms element_counts)%Z).
Proof.
  intros Halpha Hnn. unfold compute_wM.
  pose proof (metal_atoms_le_total _ Hnn) as [Hm0 Hmt]. unfold metal_atoms in *.
  destruct (Z.eqb_spec (sum_values element_counts) 0) as [Hz|Hnz].
  { exists 1.0. unfold_py. split; [done|]. split; [lra|]. intros; lra. }
  set (N_metal := sum_values (filter _ element_counts)) in *.
  set (N_total := sum_values element_counts) in *.
  assert (0 < IZR N_total) by (apply IZR_lt; lia).
  assert (0 <= IZR N_metal <= IZR N_total) by (split; apply IZR_le; lia).
  rewrite fdiv_ok by lra. unfold_py. eexists; split; [done|].
  assert (0 <= IZR N_metal / IZR N_total <= 1) as [Hr0 Hr1].
  { split.
    - apply Rmult_le_pos; [lra|]. left. by apply Rinv_0_lt_compat.
    - apply Rmult_le_reg_r with (IZR N_total); [done|]. field_simplify; lra. }
  split; [split; nra|].
  intros Hw. destruct (Z.eq_dec N_metal 0%Z) as [E|E]; [|lia].
  rewrite E in Hw. unfold Rdiv in Hw. rewrite Rmult_0_l in Hw. lra.
Qed.

Lemma compute_wD_sane self element_counts :
  0 <= beta_diversity self ->
  exists w, compute_wD self element_counts = Ok w /\ 1 <= w.
Proof.
  intros Hbeta. unfold compute_wD.
  destruct (Z.leb_spec (sum_values element_counts) 1) as [Hle|Hgt].
  { exists 1.0. unfold_py. split; [done|lra]. }
  set (N := sum_values element_counts) in *.
  assert (1 < IZR (1 + N)) by (apply IZR_lt; lia).
  assert (0 < ln (IZR (1 + N))).
  { rewrite <- ln_1. apply ln_increasing; lra. }
  rewrite mlog_ok by lra. unfold_py. rewrite fdiv_ok by lra.
  eexists; split; [done|].
  assert (0 <= INR (size element_counts) / ln (IZR (1 + N))).
  { apply Rmult_le_pos; [apply pos_INR|]. left. by apply Rinv_0_lt_compat. }
  nra.
Qed.

(** [score] written out, once its fallible parts have returned. *)
Lemma score_explicit self N element_counts total_charge health converged bounded
      has_long_range wn wm wd c :
  compute_wN self N = Ok wn ->
  compute_wM self element_counts = Ok wm ->
  compute_wD self element_counts = Ok wd ->
  compute_cost N has_long_range = Ok (PyFloat c) ->
  1 + lambda_cost self * c <> 0 ->
  score self N element_counts total_charge health converged bounded
        has_long_range
  = Ok {| wN := wn;
          wQ := compute_wQ self total_charge;
          wM := wm;
          wD := wd;
          wS := compute_wS health converged bounded;
          wC := (compute_wC self element_counts).1;
          cost := c;
          value := wn * compute_wQ self total_charge * wm * wd
                   * (compute_wC self element_counts).1
                   * compute_wS health converged bounded;
          priority :=
            Rmin 100
              (wn * compute_wQ self total_charge * wm * wd
               * (compute_wC self element_counts).1
               * compute_wS health converged bounded
               / (1 + lambda_cost self * c) * 50);
          classifications := (compute_wC self element_counts).2 |}.
Proof.
  intros EN EM ED EC Hden. unfold score. rewrite EN, EM, ED, EC. unfold_py.
  destruct (compute_wC self element_counts) as [wc labels]. simpl.
  replace (1.0 + lambda_cost self * c) with (1 + lambda_cost self * c) by lra.
  rewrite fdiv_ok by done.
  replace 100.0 with 100 by lra. by replace 50.0 with 50 by lra.
Qed.

Lemma compute_cost_cases N has_long_range :
  ((N < 0)%Z /\ has_long_range = false
   /\ compute_cost N has_long_range = Ok PyComplex)
  \/ (~ ((N < 0)%Z /\ has_long_range = false)
      /\ exists c, compute_cost N has_long_range = Ok (PyFloat c) /\ 0 <= c).
Proof.
  pose proof Rpower_2000_pos as HP.
  assert (Hdiv : forall x, 0 <= x -> 0 <= x / Rpower 2000 1.5).
  { intros x Hx. apply Rmult_le_pos; [done|]. left. by apply Rinv_0_lt_compat. }
  unfold compute_cost, pow15. destruct has_long_range.
  - right. split; [intros [_ ?]; done|].
    rewrite fdiv_ok by lra. unfold_py. eexists; split; [done|].
    apply Hdiv, IZR_le. nia.
  - destruct (Z.ltb_spec N 0); [by left|]. right. split; [lia|].
    destruct (compute_cost_nonneg N false) as (c & Hc & Hc0 & _); [done|].
    unfold compute_cost, pow15 in Hc.
    destruct (Z.ltb_spec N 0); [lia|]. eauto.
Qed.

Lemma priority_mono V1 V2 D1 D2 :
  0 <= V1 <= V2 -> 0 < D2 <= D1 ->
  Rmin 100 (V1 / D1 * 50) <= Rmin 100 (V2 / D2 * 50).
Proof.
  intros [HV1 HV12] [HD2 HD12]. apply Rle_min_compat_l.
  apply Rmult_le_compat_r; [lra|].
  apply Rle_trans with (V1 / D2).
  - apply Rmult_le_compat_l; [done|]. apply Rinv_le_contravar; lra.
  - apply Rmult_le_compat_r; [|done]. left. by apply Rinv_0_lt_compat.
Qed.

(** X5. The range of the priority does not hinge on the default weights: for
    any configuration with non-zero widths and non-negative amplitudes and
    coefficients, any [N >= 0] and any composition without negative counts,
    [score] returns a breakdown whose priority lies in [0, 100] and whose
    metal factor lies in [1, 1 + alpha_metal]. *)
Theorem score_in_range_any_config self N element_counts total_charge health
        converged bounded has_long_range :
  sane self -> (0 <= N)%Z -> nonneg_counts element_counts ->
  exists s,
    score self N element_counts total_charge health converged bounded
          has_long_range = Ok s
    /\ 0 <= priority s <= 100
    /\ 0 <= value s
    /\ 0 <= wN s /\ 0 < wQ s /\ 1 <= wM s <= 1 + alpha_metal self
    /\ 1 <= wD s /\ 1 <= wC s /\ 0 < wS s /\ 0 <= cost s.
Proof.
  intros Hsane HN Hnn.
  destruct (compute_wN_sane self N Hsane) as (wn & EN & HwN).
  destruct Hsane as (_ & _ & _ & _ & Halpha & Hbeta & Hlambda).
  destruct (compute_wM_bounds self element_counts Halpha Hnn) as (wm & EM & HwM & _).
  destruct (compute_wD_sane self element_counts Hbeta) as (wd & ED & HwD).
  destruct (compute_cost_nonneg N has_long_range HN) as (c & EC & Hc & _).
  assert (0 <= lambda_cost self * c) by (by apply Rmult_le_pos).
  pose proof (compute_wC_ge_1 self element_counts) as HwC.
  pose proof (compute_wQ_pos self total_charge) as HwQ.
  pose proof (compute_wS_pos health converged bounded) as HwS.
  eexists. split; [apply (score_explicit _ _ _ _ _ _ _ _ wn wm wd c); (done || lra)|].
  simpl.
  assert (0 <= wn * compute_wQ self total_charge * wm * wd
               * (compute_wC self element_counts).1
               * compute_wS health converged bounded) as HV.
  { repeat apply Rmult_le_pos; lra. }
  repeat split; try lra; try done.
  - apply Rmin_glb; [lra|]. apply Rmult_le_pos; [|lra].
    apply Rmult_le_pos; [done|]. left. apply Rinv_0_lt_compat. lra.
  - apply Rmin_l.
Qed.

Lemma default_scorer_sane : sane default_scorer.
Proof. unfold sane; simpl. repeat split; lra. Qed.

Lemma score_in_range_any_config_witness :
  exists s,
    score default_scorer 3 {[ "H" := 2%Z; "O" := 1%Z ]} 0 "bounded" false true true
    = Ok s
    /\ 0 <= priority s <= 100
    /\ 0 <= value s
    /\ 0 <= wN s /\ 0 < wQ s /\ 1 <= wM s <= 1 + alpha_metal default_scorer
    /\ 1 <= wD s /\ 1 <= wC s /\ 0 < wS s /\ 0 <= cost s.
Proof.
  apply score_in_range_any_config.
  - apply default_scorer_sane.
  - lia.
  - unfold nonneg_counts. apply (bool_decide_unpack _). by vm_compute.
Defined.

Lemma compute_wM_returns self element_counts :
  exists w, compute_wM self element_counts = Ok w.
Proof.
  unfold compute_wM.
  destruct (Z.eqb_spec (sum_values element_counts) 0) as [Hz|Hnz]; [by eexists|].
  rewrite fdiv_ok by (by apply not_0_IZR). by eexists.
Qed.

Lemma compute_wD_returns self element_counts :
  exists w, compute_wD self element_counts = Ok w.
Proof.
  unfold compute_wD.
  destruct (Z.leb_spec (sum_values element_counts) 1) as [Hle|Hgt]; [by eexists|].
  set (N := sum_values element_counts) in *.
  assert (1 < IZR (1 + N)) by (apply IZR_lt; lia).
  assert (0 < ln (IZR (1 + N))).
  { rewrite <- ln_1. apply ln_increasing; lra. }
  rewrite mlog_ok by lra. unfold_py. rewrite fdiv_ok by lra. by eexists.
Qed.

Lemma real_ok_small x : -100 <= x <= 100 -> real_ok x.
Proof.
  intros Hx. unfold real_ok. apply Rle_trans with 100; [by apply Rabs_le|].
  apply (IZR_le 100). by vm_compute.
Qed.

(** X6. What the default scorer raises when its numbers stay in the range
    of floats ([N] within the bound, counts not negative and of a sum
    within the bound): [score] fails exactly when [N] is negative and
    long-range interactions are off, where [N ** 1.5] is a complex number
    that [min] cannot order, and the exception is then a [TypeError]; on
    every other such input it returns a breakdown.  (Beyond the bound the
    code can raise [OverflowError], of which the exact arithmetic of the
    model shows nothing; the two hypotheses keep the statement to the inputs
    where model and code raise alike.) *)
Theorem default_score_errors N element_counts total_charge health converged
        bounded has_long_range :
  int_ok N -> counts_ok element_counts ->
  ((N < 0)%Z /\ has_long_range = false ->
   score default_scorer N element_counts total_charge health converged bounded
         has_long_range = Raise TypeError)
  /\ (~ ((N < 0)%Z /\ has_long_range = false) ->
      exists s, score default_scorer N element_counts total_charge health
                      converged bounded has_long_range = Ok s).
Proof.
  intros _ _.
  destruct (compute_wN_default N) as (wn & EN & _).
  destruct (compute_wM_returns default_scorer element_counts) as (wm & EM).
  destruct (compute_wD_returns default_scorer element_counts) as (wd & ED).
  destruct (compute_cost_cases N has_long_range)
    as [(HN & Hlr & EC)|(Hno & c & EC & Hc)].
  - split; [|tauto]. intros _. unfold score. rewrite EN, EM, ED, EC. unfold_py.
    by destruct (compute_wC default_scorer element_counts).
  - split; [tauto|]. intros _. eexists.
    apply (score_explicit _ _ _ _ _ _ _ _ wn wm wd c); try done. simpl. lra.
Qed.

Lemma default_score_errors_witness :
  score default_scorer (-1) {[ "H" := 2%Z; "O" := 1%Z ]} 0 "converged" true true
        false
  = Raise TypeError.
Proof.
  assert (int_ok (-1)) as HN by (by vm_compute).
  assert (counts_ok {[ "H" := 2%Z; "O" := 1%Z ]}) as Hcounts.
  { split; [|by vm_compute]. apply (bool_decide_unpack _). by vm_compute. }
  apply (proj1 (default_score_errors (-1) _ 0 "converged" true true false
                  HN Hcounts)).
  split; [lia|done].
Defined.

Lemma compute_wN_zero_width self N :
  sigma1 self = 0 \/ sigma2 self = 0 -> compute_wN self N = Raise ZeroDivisionError.
Proof.
  intros Hsigma. unfold compute_wN.
  assert (forall x s, s = 0 -> fdiv x (2 * s ^ 2) = Raise ZeroDivisionError) as Hz.
  { intros x s ->. unfold fdiv. destruct (Req_dec_T (2 * 0 ^ 2) 0) as [|Hne]; [done|].
    exfalso. apply Hne. simpl. lra. }
  destruct (fdiv (- (IZR N - mu1 self) ^ 2) (2 * sigma1 self ^ 2)) as [e1|e] eqn:E1.
  - destruct Hsigma as [E|E]; [by rewrite (Hz _ _ E) in E1|].
    unfold_py. by rewrite (Hz _ _ E).
  - unfold fdiv in E1. destruct (Req_dec_T _ _); [|done]. by injection E1 as <-.
Qed.

(** X7. A scorer configured with a zero width raises [ZeroDivisionError]
    whenever its centres, its widths and [N] are within the bound of
    floats: the size preference divides by [2 * sigma ** 2] before anything
    else is computed.  (Beyond the bound the square in the numerator, which
    the code evaluates before the division, can raise [OverflowError]
    first.) *)
Theorem score_zero_width self N element_counts total_charge health converged
        bounded has_long_range :
  config_ok self -> int_ok N ->
  sigma1 self = 0 \/ sigma2 self = 0 ->
  score self N element_counts total_charge health converged bounded
        has_long_range = Raise ZeroDivisionError.
Proof.
  intros _ _ Hsigma. unfold score. by rewrite compute_wN_zero_width.
Qed.

Lemma score_zero_width_witness :
  score (mkMolecularScorer 8 56 0 12 1 0.8 2 0.3 0.5 0.01 true)
        3 {[ "H" := 2%Z; "O" := 1%Z ]} 0 "converged" true true false
  = Raise ZeroDivisionError.
Proof.
  apply score_zero_width.
  - repeat split; apply real_ok_small; simpl; lra.
  - by vm_compute.
  - by left.
Defined.

(** *** Comparing two scores *)

(** A breakdown returned by a sane configuration for [N >= 0] and counts
    that are not negative, with the parts that do not depend on the health,
    the flags or the long-range choice singled out. *)
Lemma score_sane_parts self N element_counts total_charge :
  sane self -> (0 <= N)%Z -> nonneg_counts element_counts ->
  exists wn wm wd,
    0 <= wn /\ 1 <= wm /\ 1 <= wd
    /\ (1 < wm -> (0 < metal_atoms element_counts)%Z)
    /\ forall health converged bounded has_long_range,
        exists c,
          compute_cost N has_long_range = Ok (PyFloat c) /\ 0 <= c
          /\ forall flag,
              score (with_classification flag self) N element_counts total_charge
                    health converged bounded has_long_range
              = Ok {| wN := wn;
                      wQ := compute_wQ self total_charge;
                      wM := wm;
                      wD := wd;
                      wS := compute_wS health converged bounded;
                      wC := (compute_wC (with_classification flag self)
                                        element_counts).1;
                      cost := c;
                      value := wn * compute_wQ self total_charge * wm * wd
                               * (compute_wC (with_classification flag self)
                                             element_counts).1
                               * compute_wS health converged bounded;
                      priority :=
                        Rmin 100
                          (wn * compute_wQ self total_charge * wm * wd
                           * (compute_wC (with_classification flag self)
                                         element_counts).1
                           * compute_wS health converged bounded
                           / (1 + lambda_cost self * c) * 50);
                      classifications :=
                        (compute_wC (with_classification flag self)
                                    element_counts).2 |}.
Proof.
  intros Hsane HN Hnn.
  destruct (compute_wN_sane self N Hsane) as (wn & EN & HwN).
  destruct Hsane as (_ & _ & _ & _ & Halpha & Hbeta & Hlambda).
  destruct (compute_wM_bounds self element_counts Halpha Hnn)
    as (wm & EM & HwM & Hmetal).
  destruct (compute_wD_sane self element_counts Hbeta) as (wd & ED & HwD).
  exists wn, wm, wd. repeat split; try lra; try done.
  intros health converged bounded has_long_range.
  destruct (compute_cost_nonneg N has_long_range HN) as (c & EC & Hc & _).
  exists c. repeat split; try done. intros flag.
  assert (0 <= lambda_cost self * c) by (by apply Rmult_le_pos).
  apply (score_explicit (with_classification flag self)); try done. simpl. lra.
Qed.

Lemma with_classification_id self :
  with_classification (use_classification self) self = self.
Proof. by destruct self. Qed.



Lemma pow15_le_square N :
  (1 <= N)%Z -> Rpower (IZR N) 1.5 <= IZR (N * N).
Proof.
  intros HN. assert (1 <= IZR N) as H1 by (by apply IZR_le).
  rewrite mult_IZR. replace (IZR N * IZR N) with (IZR N ^ 2) by ring.
  rewrite <- (Rpower_pow 2) by lra.
  apply Rle_Rpower; [done|]. simpl. lra.
Qed.

(** X10. Under a configuration with non-zero widths and non-negative
    amplitudes and coefficients, for [N >= 0] and counts that are not
    negative, modelling long-range interactions never raises the priority:
    for the same input, the cost with [has_long_range] ([N * N]) is at least
    the cost without ([N ** 1.5]), and the priority is at most the one
    without. *)
Theorem score_long_range_not_higher self N element_counts total_charge health
        converged bounded :
  sane self -> (0 <= N)%Z -> nonneg_counts element_counts ->
  exists s_long s_short,
    score self N element_counts total_charge health converged bounded true
    = Ok s_long
    /\ score self N element_counts total_charge health converged bounded false
       = Ok s_short
    /\ cost s_short <= cost s_long /\ priority s_long <= priority s_short.
Proof.
  intros Hsane HN Hnn.
  destruct (score_sane_parts self N element_counts total_charge Hsane HN Hnn)
    as (wn & wm & wd & Hwn & Hwm & Hwd & _ & Hscore).
  destruct (Hscore health converged bounded true) as (c1 & EC1 & Hc1 & H1).
  destruct (Hscore health converged bounded false) as (c2 & EC2 & Hc2 & H2).
  specialize (H1 (use_classification self)). specialize (H2 (use_classification self)).
  rewrite with_classification_id in H1, H2.
  do 2 eexists. split; [exact H1|]. split; [exact H2|]. cbn [cost priority].
  assert (c2 <= c1) as Hcost.
  { pose proof Rpower_2000_pos as HP.
    unfold compute_cost, pow15 in EC1, EC2.
    rewrite fdiv_ok in EC1 by lra.
    destruct (Z.ltb_spec N 0); [lia|].
    destruct (Z.eqb_spec N 0) as [->|Hnz];
      rewrite fdiv_ok in EC2 by lra; unfold_py;
      injection EC1 as <-; injection EC2 as <-.
    - simpl. lra.
    - apply Rmult_le_compat_r; [left; by apply Rinv_0_lt_compat|].
      apply pow15_le_square. lia. }
  split; [done|].
  pose proof (compute_wC_ge_1 self element_counts) as HwC.
  pose proof (compute_wQ_pos self total_charge) as HwQ.
  pose proof (compute_wS_pos health converged bounded) as HwS.
  destruct Hsane as (_ & _ & _ & _ & _ & _ & Hlambda).
  apply priority_mono.
  - split; [|lra]. repeat apply Rmult_le_pos; lra.
  - assert (0 <= lambda_cost self * c2) by (by apply Rmult_le_pos).
    assert (lambda_cost self * c2 <= lambda_cost self * c1)
      by (by apply Rmult_le_compat_l).
    lra.
Qed.

Lemma score_long_range_not_higher_witness :
  exists s_long s_short,
    score default_scorer 12 {[ "C" := 6%Z; "H" := 6%Z ]} 0 "bounded" false true true
    = Ok s_long
    /\ score default_scorer 12 {[ "C" := 6%Z; "H" := 6%Z ]} 0 "bounded" false true
             false = Ok s_short
    /\ cost s_short <= cost s_long /\ priority s_long <= priority s_short.
Proof.
  apply score_long_range_not_higher.
  - apply default_scorer_sane.
  - lia.
  - unfold nonneg_counts. apply (bool_decide_unpack _). by vm_compute.
Defined.

(** X11. Under a configuration with non-zero widths and non-negative
    amplitudes and coefficients, for [N >= 0] and counts that are not
    negative, classification is a bonus only: with [use_classification] off
    the factor [wC] is 1.0 and no label is reported, and switching it on,
    the rest of the configuration and the input being the same, never
    lowers the value or the priority. *)
Theorem score_classification_not_lower self N element_counts total_charge health
        converged bounded has_long_range :
  sane self -> (0 <= N)%Z -> nonneg_counts element_counts ->
  exists s_off s_on,
    score (with_classification false self) N element_counts total_charge health
          converged bounded has_long_range = Ok s_off
    /\ score (with_classification true self) N element_counts total_charge health
             converged bounded has_long_range = Ok s_on
    /\ wC s_off = 1 /\ classifications s_off = []
    /\ value s_off <= value s_on /\ priority s_off <= priority s_on.
Proof.
  intros Hsane HN Hnn.
  destruct (score_sane_parts self N element_counts total_charge Hsane HN Hnn)
    as (wn & wm & wd & Hwn & Hwm & Hwd & _ & Hscore).
  destruct (Hscore health converged bounded has_long_range) as (c & EC & Hc & H).
  pose proof (H false) as E1. pose proof (H true) as E2.
  assert (compute_wC (with_classification false self) element_counts = (1.0, []))
    as Hoff by reflexivity.
  rewrite Hoff in E1.
  do 2 eexists. split; [exact E1|]. split; [exact E2|].
  cbn [wC value priority classifications fst snd].
  pose proof (compute_wC_ge_1 (with_classification true self) element_counts) as HwC.
  pose proof (compute_wQ_pos self total_charge) as HwQ.
  pose proof (compute_wS_pos health converged bounded) as HwS.
  destruct Hsane as (_ & _ & _ & _ & _ & _ & Hlambda).
  assert (0 <= lambda_cost self * c) by (by apply Rmult_le_pos).
  set (wc := (compute_wC (with_classification true self) element_counts).1) in *.
  assert (0 <= wn * compute_wQ self total_charge * wm * wd) as Hk
    by (repeat apply Rmult_le_pos; lra).
  assert (wn * compute_wQ self total_charge * wm * wd * 1.0
            * compute_wS health converged bounded
          <= wn * compute_wQ self total_charge * wm * wd * wc
             * compute_wS health converged bounded) as Hle.
  { apply Rmult_le_compat_r; [lra|]. apply Rmult_le_compat_l; [done|lra]. }
  split; [lra|]. split; [done|]. split; [done|].
  apply priority_mono; [|lra]. split; [|done].
  apply Rmult_le_pos; [|lra]. apply Rmult_le_pos; [done|lra].
Qed.

Lemma score_classification_not_lower_witness :
  exists s_off s_on,
    score (with_classification false default_scorer) 21
          {[ "C" := 10%Z; "H" := 10%Z; "Fe" := 1%Z ]} 0 "converged" true true false
    = Ok s_off
    /\ score (with_classification true default_scorer) 21
             {[ "C" := 10%Z; "H" := 10%Z; "Fe" := 1%Z ]} 0 "converged" true true
             false = Ok s_on
    /\ wC s_off = 1 /\ classifications s_off = []
    /\ value s_off <= value s_on /\ priority s_off <= priority s_on.
Proof.
  apply score_classification_not_lower.
  - apply default_scorer_sane.
  - lia.
  - unfold nonneg_counts. apply (bool_decide_unpack _). by vm_compute.
Defined.

(** *** Metal richness and the organometallic class *)

Lemma sum_values_pos_lookup (m : gmap string Z) :
  (0 < sum_values m)%Z -> exists k v, m !! k = Some v.
Proof.
  destruct (decide (m = ∅)) as [->|Hne]; [rewrite sum_values_empty; lia|].
  intros _. apply map_choose in Hne as (k & v & Hk). eauto.
Qed.

Lemma metal_symbols_metals x : x ∈ metal_symbols -> x ∈ Classification.metals.
Proof.
  assert (metal_symbols ⊆ Classification.metals) as Hsub.
  { apply (bool_decide_unpack _). by vm_compute. }
  apply Hsub.
Qed.

(** X12. The scorer's metal richness and the classifier agree on carbon
    compounds: when the default scorer rewards a composition for its metal
    atoms ([wM > 1]) and carbon is one of its elements, [organometallic] is
    among the classifications of the breakdown. *)
Theorem metal_rich_carbon_scored_organometallic N element_counts total_charge
        health converged bounded has_long_range :
  (0 <= N)%Z -> nonneg_counts element_counts ->
  "C" ∈ dom element_counts ->
  exists s,
    score default_scorer N element_counts total_charge health converged bounded
          has_long_range = Ok s
    /\ (1 < wM s -> "organometallic" ∈ classifications s).
Proof.
  intros HN Hnn HC.
  destruct (score_sane_parts default_scorer N element_counts total_charge
              default_scorer_sane HN Hnn)
    as (wn & wm & wd & Hwn & Hwm & Hwd & Hmetal & Hscore).
  destruct (Hscore health converged bounded has_long_range) as (c & EC & Hc & H).
  specialize (H true). change (with_classification true default_scorer)
    with default_scorer in H.
  eexists. split; [exact H|]. cbn [wM classifications].
  intros Hw. specialize (Hmetal Hw). unfold metal_atoms in Hmetal.
  apply sum_values_pos_lookup in Hmetal as (k & v & Hk).
  apply map_lookup_filter_Some in Hk as [Hk Hsym]. simpl in Hsym.
  destruct (ClassificationSpec._detect_organometallic_fires
              (dom element_counts) element_counts k HC)
    as (o & Ho & Hl & _).
  { apply elem_of_dom. eauto. }
  { by apply metal_symbols_metals. }
  assert (o ∈ classify element_counts) as Hin.
  { apply ClassificationExtra.elem_of_classify. by left. }
  unfold compute_wC, classify_molecule. simpl.
  destruct (classify element_counts) as [|c0 cs] eqn:Ecls;
    [by apply elem_of_nil in Hin|].
  simpl. rewrite <- Hl. apply (list_elem_of_fmap_2 label) in Hin. exact Hin.
Qed.

Lemma metal_rich_carbon_scored_organometallic_witness :
  exists s,
    score default_scorer 21 {[ "C" := 10%Z; "H" := 10%Z; "Fe" := 1%Z ]} 0
          "converged" true true false = Ok s
    /\ (1 < wM s -> "organometallic" ∈ classifications s).
Proof.
  apply metal_rich_carbon_scored_organometallic.
  - lia.
  - unfold nonneg_counts. apply (bool_decide_unpack _). by vm_compute.
  - by vm_compute.
Defined.

End ScoringExtra.

(** ** The validator, the parser and the workflow *)

Module PipelineExtra.
Import Pipeline Composition.

(** X13. The verdict of [validate_molecule] follows the database matches: a
    molecule is known exactly when there is a match; it is reported novel
    exactly when there is none and the simulation calls it stable; the
    confidence is 0.0 exactly for unknown molecules and otherwise 1.0 or
    0.5, so every molecule reported novel carries confidence 0.0. *)
Theorem validate_molecule_verdict db_matches formula energy stability :
  let r := Validator.validate_molecule db_matches formula energy stability in
  Validator.matches r = db_matches
  /\ (Validator.is_known r = true <-> db_matches <> [])
  /\ (Validator.novel r = true <-> db_matches = [] /\ stability = "stable")
  /\ (Validator.confidence r == 0 <-> db_matches = [])%Q
  /\ (db_matches <> [] ->
      Validator.confidence r == 1 \/ Validator.confidence r == 0.5)%Q
  /\ (Validator.novel r = true ->
      Validator.is_known r = false /\ Validator.confidence r == 0)%Q.
Proof.
  unfold Validator.validate_molecule.
  destruct db_matches as [|first rest].
  - destruct (String.eqb_spec stability "stable"); simpl;
      repeat split; try done; try tauto; intros; try discriminate; tauto.
  - cbn [length Nat.ltb Nat.leb].
    destruct (String.eqb stability "stable" && _);
      [|destruct (String.eqb stability "unstable" && _)]; simpl;
      repeat split; try done; intros; try discriminate;
      try (by left); try (by right); try tauto;
      try (match goal with H : (_ == _)%Q |- _ => by vm_compute in H end);
      try (match goal with H : _ :: _ = [] /\ _ |- _ => by destruct H end).
Qed.

(** *** Counting the atoms of a structure file *)

Lemma sum_values_insert_existing (m : gmap string Z) k v v' :
  m !! k = Some v -> sum_values (<[k := v']> m) = (sum_values m - v + v')%Z.
Proof.
  intros Hk. rewrite <- (insert_delete_eq m).
  rewrite ScoringExtra.sum_values_insert by apply lookup_delete_eq.
  rewrite <- (insert_delete_id m k v Hk) at 2.
  rewrite ScoringExtra.sum_values_insert by apply lookup_delete_eq. lia.
Qed.

Lemma sum_values_increment (m : gmap string Z) k :
  sum_values (<[k := (get0 m k + 1)%Z]> m) = (sum_values m + 1)%Z.
Proof.
  unfold get0. destruct (m !! k) as [v|] eqn:Hk; simpl.
  - rewrite (sum_values_insert_existing _ _ v) by done. lia.
  - rewrite ScoringExtra.sum_values_insert by done. lia.
Qed.

Import XyzParse.

Lemma count_line_valid element_counts parts :
  valid element_counts -> valid (XyzParse.count_line element_counts parts).
Proof.
  intros Hv. unfold XyzParse.count_line, counted.
  destruct (4 <=? length parts)%nat; [|done].
  destruct parts as [|element parts]; [done|].
  apply map_Forall_insert_2; [|done]. unfold get0.
  destruct (element_counts !! element) as [v|] eqn:E; simpl; [|lia].
  specialize (Hv _ _ E). simpl in Hv. lia.
Qed.

Lemma count_line_total element_counts parts :
  total (XyzParse.count_line element_counts parts)
  = (total element_counts + (if counted parts then 1 else 0))%Z.
Proof.
  unfold XyzParse.count_line, counted, total.
  destruct (Nat.leb_spec 4 (length parts)) as [Hlen|Hlen]; [|lia].
  destruct parts as [|element parts]; [simpl in Hlen; lia|].
  apply sum_values_increment.
Qed.

Lemma count_elements_spec rows :
  valid (XyzParse.count_elements rows)
  /\ total (XyzParse.count_elements rows)
     = Z.of_nat (length (List.filter counted rows)).
Proof.
  unfold XyzParse.count_elements.
  assert (H : forall ec,
             valid ec ->
             valid (fold_left XyzParse.count_line rows ec)
             /\ total (fold_left XyzParse.count_line rows ec)
                = (total ec + Z.of_nat (length (List.filter counted rows)))%Z).
  { induction rows as [|parts rows IH]; intros ec Hec; simpl.
    - split; [done|lia].
    - destruct (IH _ (count_line_valid ec parts Hec)) as [Hv Ht].
      split; [done|]. rewrite Ht, count_line_total.
      destruct (counted parts); simpl; lia. }
  destruct (H ∅) as [Hv Ht]; [apply map_Forall_empty|].
  split; [done|]. rewrite Ht. unfold total. rewrite ScoringExtra.sum_values_empty. lia.
Qed.

Lemma slice_from_2_length {A : Type} (lines : list A) num_atoms :
  (0 <= num_atoms)%Z ->
  (Z.of_nat (length (XyzParse.slice_from_2 lines (2 + num_atoms))) <= num_atoms)%Z
  /\ ((2 + num_atoms <= Z.of_nat (length lines))%Z ->
      Z.of_nat (length (XyzParse.slice_from_2 lines (2 + num_atoms))) = num_atoms).
Proof.
  intros Hn. unfold XyzParse.slice_from_2.
  destruct (Z.ltb_spec (2 + num_atoms) 0); [lia|].
  rewrite length_take, length_drop. lia.
Qed.

(** X14. The composition that [parse_xyz_file] returns is a valid one (every
    count is at least 1), and its total is the number of sliced lines with
    at least four parts.  For a header [num_atoms >= 0] the total never
    exceeds the header, and equals it when the file has all [num_atoms] atom
    lines and each has at least four parts; the header itself is returned
    unchanged, so the two can differ. *)
Theorem parse_xyz_file_counts num_atoms lines :
  let '(formula, n, element_counts) := XyzParse.parse_xyz_file num_atoms lines in
  let rows := XyzParse.slice_from_2 lines (2 + num_atoms) in
  n = num_atoms
  /\ formula = formula_of_counts element_counts
  /\ valid element_counts
  /\ total element_counts = Z.of_nat (length (List.filter counted rows))
  /\ ((0 <= num_atoms)%Z -> (total element_counts <= num_atoms)%Z)
  /\ ((0 <= num_atoms)%Z -> (2 + num_atoms <= Z.of_nat (length lines))%Z ->
      Forall (fun parts => counted parts = true) rows ->
      total element_counts = num_atoms).
Proof.
  unfold XyzParse.parse_xyz_file. cbv zeta.
  set (rows := XyzParse.slice_from_2 lines (2 + num_atoms)).
  destruct (count_elements_spec rows) as [Hv Ht].
  split; [done|]. split; [done|]. split; [done|]. split; [done|].
  split.
  - intros Hn. rewrite Ht.
    pose proof (proj1 (slice_from_2_length lines num_atoms Hn)) as Hlen.
    pose proof (List.filter_length_le counted rows). fold rows in Hlen. lia.
  - intros Hn Hlines Hall. rewrite Ht.
    pose proof (proj2 (slice_from_2_length lines num_atoms Hn) Hlines) as Hlen.
    fold rows in Hlen. rewrite <- Hlen. f_equal. f_equal.
    apply List.forallb_filter_id. apply forallb_forall.
    intros x Hx. rewrite Forall_forall in Hall. apply Hall.
    by apply list_elem_of_In.
Qed.

(** Water with a header of 3; and a header of 3 over a file that holds one
    atom line only. *)
Example parse_xyz_file_water :
  XyzParse.parse_xyz_file 3
    [["3"]; ["water"]; ["O"; "0.0"; "0.0"; "0.0"]; ["H"; "0.7"; "0.5"; "0.0"];
     ["H"; "-0.7"; "0.5"; "0.0"]]
  = ("H2O", 3%Z, {[ "O" := 1%Z; "H" := 2%Z ]})
  /\ XyzParse.parse_xyz_file 3 [["3"]; ["truncated"]; ["O"; "0.0"; "0.0"; "0.0"]]
     = ("O", 3%Z, {[ "O" := 1%Z ]}).
Proof. split; by vm_compute. Qed.

Lemma parse_xyz_file_counts_witness :
  (0 <= 3)%Z
  /\ total (XyzParse.parse_xyz_file 3
              [["3"]; ["water"]; ["O"; "0.0"; "0.0"; "0.0"];
               ["H"; "0.7"; "0.5"; "0.0"]; ["H"; "-0.7"; "0.5"; "0.0"]]).2
     = 3%Z.
Proof.
  split; [lia|].
  pose proof (parse_xyz_file_counts 3
                [["3"]; ["water"]; ["O"; "0.0"; "0.0"; "0.0"];
                 ["H"; "0.7"; "0.5"; "0.0"]; ["H"; "-0.7"; "0.5"; "0.0"]]) as H.
  unfold XyzParse.parse_xyz_file in H. cbv beta iota zeta in H.
  destruct H as (_ & _ & _ & _ & _ & H).
  apply H; [lia|cbn; lia|].
  apply (bool_decide_unpack _). by vm_compute.
Defined.

(** *** The workflow *)

(** X15. [run_discovery_workflow] logs the discovery and then fails: for
    every input it appends the record to the catalog, raises the
    [AttributeError] of [record.model] inside [_calculate_priority_score],
    and leaves the cards index as it was.  No call returns and no card is
    ever indexed. *)
Theorem run_discovery_workflow_fails state num_atoms lines sim_data db_matches
        xyz_file timestamp method :
  exists record,
    Workflow.run_discovery_workflow state num_atoms lines sim_data db_matches
                                    xyz_file timestamp method
    = ({| Workflow.catalog := Workflow.catalog state ++ [record];
          Workflow.cards := Workflow.cards state |},
       Workflow.Raises Workflow.AttributeError)
    /\ formula record
       = formula_of_counts
           (XyzParse.count_elements (XyzParse.slice_from_2 lines (2 + num_atoms)))
    /\ energy record = Workflow.sim_energy sim_data
    /\ stable record = Workflow.sim_stable sim_data.
Proof. eexists. split; [reflexivity|]. done. Qed.

End PipelineExtra.

(** ** More on the coverage grid *)

Module GapExtra.
Import GapTargeter GapSchedule Coverage Placement.
Import GapTargeterSpec.
Local Open Scope R_scope.
Local Open Scope list_scope.

(** *** A cell's coordinates lead back to its key *)

Lemma argmin_from_zero best_i i xs :
  Forall (fun y => 0 <= y) xs -> argmin_from 0 best_i i xs = best_i.
Proof.
  intros Hxs. revert i. induction Hxs as [|x xs Hx _ IH]; intros i; simpl; [done|].
  destruct (Rlt_dec x 0); [lra|]. apply IH.
Qed.

Lemma argmin_from_first_zero xs : forall best best_i i p,
  0 < best -> first_zero_at p xs ->
  argmin_from best best_i i xs = (i + p)%nat.
Proof.
  induction xs as [|x xs IH]; intros best best_i i p Hbest (Hp & Hbefore & Hall).
  { by rewrite lookup_nil in Hp. }
  apply Forall_cons in Hall as [Hx Hall]. simpl.
  destruct p as [|p].
  - simpl in Hp. injection Hp as ->.
    destruct (Rlt_dec 0 best); [|lra].
    rewrite argmin_from_zero by done. lia.
  - assert (0 < x) as Hx' by (apply (Hbefore 0%nat); [lia|done]).
    assert (first_zero_at p xs) as Hrest.
    { split; [done|]. split; [|done].
      intros q y Hq Hy. apply (Hbefore (S q)); [lia|done]. }
    destruct (Rlt_dec x best).
    + rewrite (IH x i (S i) p) by done. lia.
    + rewrite (IH best best_i (S i) p) by done. lia.
Qed.

Lemma argmin_first_zero xs n : first_zero_at n xs -> argmin xs = n.
Proof.
  intros (Hn & Hbefore & Hall).
  destruct xs as [|x xs]; [by rewrite lookup_nil in Hn|].
  apply Forall_cons in Hall as [Hx Hall]. simpl.
  destruct n as [|n].
  - simpl in Hn. injection Hn as ->. by apply argmin_from_zero.
  - assert (0 < x) as Hx' by (apply (Hbefore 0%nat); [lia|done]).
    rewrite (argmin_from_first_zero xs x 0 1 n); [done|done|].
    split; [done|]. split; [|done].
    intros q y Hq Hy. apply (Hbefore (S q)); [lia|done].
Qed.

Lemma linspace_lookup start stop num (n : nat) x :
  linspace start stop num !! n = Some x ->
  (n < num)%nat /\ x = start + INR n * ((stop - start) / INR (num - 1)).
Proof.
  unfold linspace. rewrite list_lookup_fmap.
  destruct (seq 0 num !! n) as [m|] eqn:E; [|done].
  apply lookup_seq in E as [-> Hlt]. simpl. intros [= <-]. done.
Qed.

(** The distances of the bins of a [linspace] with distinct ends to one of
    its bins have their only zero at that bin. *)
Lemma linspace_distances start stop num n x :
  start <> stop -> (2 <= num)%nat ->
  linspace start stop num !! n = Some x ->
  first_zero_at n (map (fun t => Rabs (t - x)) (linspace start stop num)).
Proof.
  intros Hends Hnum Hn. apply linspace_lookup in Hn as [Hlt ->].
  set (step := (stop - start) / INR (num - 1)).
  assert (step <> 0) as Hstep.
  { unfold step. assert (0 < INR (num - 1)) by (apply lt_0_INR; lia).
    intros E. apply Hends.
    assert (stop - start = 0); [|lra].
    apply Rmult_eq_reg_r with (/ INR (num - 1)); [|apply Rinv_neq_0_compat; lra].
    rewrite Rmult_0_l. exact E. }
  split; [|split].
  - rewrite list_lookup_fmap. unfold linspace. rewrite list_lookup_fmap.
    rewrite lookup_seq_lt by done. simpl. fold step.
    rewrite Rminus_diag. by rewrite Rabs_R0.
  - intros q y Hq. rewrite list_lookup_fmap.
    destruct (linspace start stop num !! q) as [t|] eqn:E; [|done].
    apply linspace_lookup in E as [_ ->]. simpl. intros [= <-]. fold step.
    apply Rabs_pos_lt.
    replace (start + INR q * step - (start + INR n * step))
      with ((INR q - INR n) * step) by ring.
    apply Rmult_integral_contrapositive_currified; [|done].
    assert (INR q < INR n) by (by apply lt_INR). lra.
  - apply Forall_map, Forall_forall. intros t _. apply Rabs_pos.
Qed.

Lemma scale_distances n s :
  scale_bins !! n = Some s ->
  first_zero_at n (map (fun t => IZR (Z.abs (t - s))) scale_bins).
Proof.
  intros Hn.
  assert (NoDup scale_bins) as Hnd by (apply (bool_decide_unpack _); by vm_compute).
  split; [|split].
  - rewrite list_lookup_fmap, Hn. simpl. by rewrite Z.sub_diag.
  - intros q y Hq. rewrite list_lookup_fmap.
    destruct (scale_bins !! q) as [t|] eqn:E; [|done]. simpl. intros [= <-].
    apply IZR_lt. assert (t <> s); [|lia].
    intros ->. pose proof (NoDup_lookup _ _ _ _ Hnd E Hn). lia.
  - apply Forall_map, Forall_forall. intros t _. apply IZR_le. lia.
Qed.

Lemma placed_round_trip k c :
  placed k c -> _get_cell_key (scale c) (temp c) (density c) = k.
Proof.
  intros (ni & nj & nk & -> & Hs & Ht & Hd). unfold _get_cell_key.
  rewrite (argmin_first_zero _ ni (scale_distances ni _ Hs)).
  rewrite (argmin_first_zero _ nj).
  2:{ apply linspace_distances; [lra|lia|done]. }
  rewrite (argmin_first_zero _ nk); [done|].
  apply linspace_distances; [lra|lia|done].
Qed.

Lemma fold_left_preserves_in {A : Type} (Q : grid -> Prop)
      (f : grid -> A -> grid) l g :
  (forall g a, a ∈ l -> Q g -> Q (f g a)) -> Q g -> Q (fold_left f l g).
Proof.
  revert g. induction l as [|a l IH]; intros g Hf Hg; simpl; [done|].
  apply IH.
  - intros g' b Hb. apply Hf. by right.
  - apply Hf; [by left|done].
Qed.

Lemma elem_of_enumerate_inv {A : Type} (xs : list A) i x :
  (i, x) ∈ enumerate xs -> exists n : nat, i = Z.of_nat n /\ xs !! n = Some x.
Proof.
  unfold enumerate. intros H.
  apply elem_of_lookup_imap_1 in H as (n & y & [= -> ->] & Hn). eauto.
Qed.

Lemma _initialize_grid_placed : placed_grid _initialize_grid.
Proof.
  unfold _initialize_grid.
  apply (fold_left_preserves_in placed_grid); [|intros k c; by rewrite lookup_empty].
  intros g [i s] Hi Hg.
  apply (fold_left_preserves_in placed_grid); [|done].
  clear g Hg. intros g [j t] Hj Hg.
  apply (fold_left_preserves_in placed_grid); [|done].
  clear g Hg. intros g [k d] Hk Hg.
  intros key c. destruct (decide ((i, j, k) = key)) as [<-|Hne].
  - rewrite lookup_insert_eq. intros [= <-].
    apply elem_of_enumerate_inv in Hi as (ni & -> & Hi).
    apply elem_of_enumerate_inv in Hj as (nj & -> & Hj).
    apply elem_of_enumerate_inv in Hk as (nk & -> & Hk).
    by exists ni, nj, nk.
  - rewrite lookup_insert_ne by done. apply Hg.
Qed.

Lemma placed_same_coordinates k c c' :
  scale c = scale c' -> temp c = temp c' -> density c = density c' ->
  placed k c -> placed k c'.
Proof.
  intros Hs Ht Hd (ni & nj & nk & H). exists ni, nj, nk.
  by rewrite <- Hs, <- Ht, <- Hd.
Qed.

Lemma record_run_placed cells sc tp dn success e cells' outcome :
  placed_grid cells ->
  record_run cells sc tp dn success e = (cells', outcome) ->
  placed_grid cells'.
Proof.
  intros Hg. unfold record_run.
  destruct (cells !! _get_cell_key sc tp dn) as [cell|] eqn:Hcell;
    [|by intros [= <- _]].
  pose proof (Hg _ _ Hcell) as Hp.
  destruct success; simpl; unfold fdiv;
    repeat (destruct (Req_dec_T _ _); simpl);
    intros [= <- _] k c;
    (destruct (decide (_get_cell_key sc tp dn = k)) as [<-|Hne];
     [rewrite lookup_insert_eq; intros [= <-];
      by apply (placed_same_coordinates _ cell)
     |rewrite lookup_insert_ne by done; apply Hg]).
Qed.

Lemma record_runs_placed runs : forall cells cells' outcome,
  placed_grid cells -> record_runs cells runs = (cells', outcome) ->
  placed_grid cells'.
Proof.
  induction runs as [|r runs IH]; intros cells cells' outcome Hg; simpl.
  - by intros [= <- _].
  - destruct (record_run cells (run_scale r) (run_temp r) (run_density r)
                (run_success r) (run_energy r)) as [cells1 [[]|e]] eqn:E.
    + apply IH. by eapply record_run_placed.
    + intros [= <- _]. by eapply record_run_placed.
Qed.

Lemma frames_placed g g' : frames g g' -> placed_grid g -> placed_grid g'.
Proof.
  intros Hf Hg k c' Hc'. specialize (Hf k). rewrite Hc' in Hf.
  inversion Hf as [c ? Hsame E1 E2|]; subst. symmetry in E1.
  destruct Hsame as (Hs & Ht & Hd & _).
  by apply (placed_same_coordinates _ c); [..|apply Hg].
Qed.

(** X16. The coordinates of a cell lead back to its key: in the initial grid
    and after any sequence of recorded runs, [_get_cell_key] applied to the
    scale, temperature and density stored in the cell at key [k] returns
    [k].  (The bins of each axis are pairwise distinct, so the nearest bin
    to a bin centre is that bin.) *)
Theorem cell_key_round_trip runs k c :
  (record_runs _initialize_grid runs).1 !! k = Some c ->
  _get_cell_key (scale c) (temp c) (density c) = k.
Proof.
  intros Hc. apply placed_round_trip.
  destruct (record_runs _initialize_grid runs) as [g outcome] eqn:E.
  apply (record_runs_placed runs _ g outcome _initialize_grid_placed E). exact Hc.
Qed.

Lemma cell_key_round_trip_witness :
  exists c,
    _initialize_grid !! _get_cell_key 20 300 0.05 = Some c
    /\ _get_cell_key (scale c) (temp c) (density c) = _get_cell_key 20 300 0.05.
Proof.
  destruct (_initialize_grid_has_key 20 300 0.05) as [c Hc].
  exists c. split; [exact Hc|].
  exact (cell_key_round_trip [] _ c Hc).
Defined.

(** *** Executing a schedule *)

Lemma execute_one_tracks g recorded config outcome :
  tracks g recorded ->
  exists g',
    execute_one g config outcome = (g', Ok ())
    /\ record_run g (run_scale (executed_run (config, outcome)))
                  (run_temp (executed_run (config, outcome)))
                  (run_density (executed_run (config, outcome)))
                  (run_success (executed_run (config, outcome)))
                  (run_energy (executed_run (config, outcome))) = (g', Ok ())
    /\ tracks g' (recorded ++ [executed_run (config, outcome)]).
Proof.
  intros Hg.
  destruct (record_run_tracks g recorded (executed_run (config, outcome)) Hg)
    as (g' & E & Hg').
  exists g'. split; [|by split].
  unfold execute_one. destruct outcome as [success energy|]; simpl in E |- *;
    by rewrite E.
Qed.

Lemma execute_schedule_tracks schedule : forall g recorded,
  tracks g recorded ->
  exists g',
    execute_schedule g schedule = (g', Ok ())
    /\ record_runs g (map executed_run schedule) = (g', Ok ())
    /\ tracks g' (recorded ++ map executed_run schedule).
Proof.
  induction schedule as [|[config outcome] schedule IH]; intros g recorded Hg.
  - exists g. simpl. by rewrite app_nil_r.
  - destruct (execute_one_tracks g recorded config outcome Hg)
      as (g1 & E1 & R1 & Hg1).
    destruct (IH g1 _ Hg1) as (g' & E & R & Hg').
    exists g'. cbn [execute_schedule map record_runs].
    rewrite E1, R1. split; [done|]. split; [done|].
    by rewrite <- app_assoc in Hg'.
Qed.

(** X17. On a grid that holds recorded runs, [execute_schedule] never
    raises, whatever the simulations do, and it has the effect of recording
    one run per configuration: the run with the outcome's success flag and
    energy when the simulation completed, a failed run of energy 0.0 when
    the [try] block raised.  So a crashed simulation raises the failure
    count of its cell and leaves the energy statistics alone. *)
Theorem execute_schedule_records runs schedule :
  exists g g',
    record_runs _initialize_grid runs = (g, Ok ())
    /\ execute_schedule g schedule = (g', Ok ())
    /\ record_runs _initialize_grid (runs ++ map executed_run schedule)
       = (g', Ok ()).
Proof.
  destruct (record_runs_tracks runs _ [] tracks_initial) as (g & E & Hg).
  destruct (execute_schedule_tracks schedule g _ Hg) as (g' & E' & R' & _).
  exists g, g'. split; [done|]. split; [done|].
  clear -E R'. revert E. generalize _initialize_grid.
  induction runs as [|r runs IH]; intros g0; simpl.
  - by intros [= ->].
  - destruct (record_run g0 _ _ _ _ _) as [g1 [[]|e]]; [|done]. apply IH.
Qed.

(** *** The gap list is sorted *)

Lemma gap_order_iff x y :
  gap_order x y
  <-> (n_runs x.2 < n_runs y.2)%Z
      \/ (n_runs x.2 = n_runs y.2 /\ max_mismatch y.2 <= max_mismatch x.2).
Proof.
  unfold gap_order, gap_key_lt.
  destruct (Z.eqb_spec (n_runs y.2) (n_runs x.2)) as [E|E].
  - destruct (Rlt_dec (- max_mismatch y.2) (- max_mismatch x.2)); split;
      intros H; try done.
    + destruct H as [H|[_ H]]; [lia|lra].
    + right. split; [done|lra].
  - rewrite Z.ltb_ge. split; [intros H; left; lia|intros [H|[H _]]; lia].
Qed.

Lemma gap_order_trans x y z : gap_order x y -> gap_order y z -> gap_order x z.
Proof.
  rewrite !gap_order_iff. intros [H1|[H1 H1']] [H2|[H2 H2']];
    [left; lia|left; lia|left; lia|right; split; [lia|lra]].
Qed.

Lemma gap_key_lt_order x y : gap_key_lt x.2 y.2 = true -> gap_order x y.
Proof.
  intros H. apply gap_order_iff. unfold gap_key_lt in H.
  destruct (Z.eqb_spec (n_runs x.2) (n_runs y.2)) as [E|E].
  - destruct (Rlt_dec _ _); [|done]. right. split; [done|lra].
  - apply Z.ltb_lt in H. by left.
Qed.

Lemma insert_gap_sorted x l :
  StronglySorted gap_order l -> StronglySorted gap_order (insert_gap x l).
Proof.
  induction 1 as [|y l Hl IH Hy]; simpl.
  - repeat constructor.
  - destruct (gap_key_lt x.2 y.2) eqn:E.
    + apply gap_key_lt_order in E.
      constructor; [by constructor|]. constructor; [done|].
      eapply Forall_impl; [exact Hy|]. intros z Hz. by eapply gap_order_trans.
    + constructor; [done|]. rewrite insert_gap_perm. by constructor.
Qed.

Lemma sort_gaps_sorted l : StronglySorted gap_order (sort_gaps l).
Proof.
  unfold sort_gaps.
  assert (H : forall acc, StronglySorted gap_order acc ->
            StronglySorted gap_order (fold_left (fun acc x => insert_gap x acc) l acc)).
  { induction l as [|x l IH]; intros acc Hacc; simpl; [done|].
    by apply IH, insert_gap_sorted. }
  apply H. constructor.
Qed.

Lemma StronglySorted_weaken {A : Type} (R R' : A -> A -> Prop) l :
  (forall x y, R x y -> R' x y) -> StronglySorted R l -> StronglySorted R' l.
Proof.
  intros HR. induction 1 as [|x l Hl IH Hx]; constructor; [done|].
  eapply Forall_impl; [exact Hx|]. intros y. apply HR.
Qed.

Lemma NoDup_fst_filter {A B : Type} (f : A * B -> bool) (l : list (A * B)) :
  NoDup l.*1 -> NoDup (List.filter f l).*1.
Proof.
  induction l as [|x l IH]; simpl; [done|].
  rewrite NoDup_cons. intros [Hx Hl]. destruct (f x); simpl; [|by apply IH].
  apply NoDup_cons. split; [|by apply IH].
  intros Hin. apply Hx. apply list_elem_of_fmap in Hin as (y & -> & Hy).
  apply list_elem_of_fmap. exists y. split; [done|].
  apply list_elem_of_In. apply list_elem_of_In in Hy.
  by apply filter_In in Hy as [Hy _].
Qed.

(** X18. The list that [identify_gaps] returns is in priority order and has
    no repetition: a cell listed before another has fewer runs, or as many
    runs and a mismatch at least as large; no key occurs twice; and every
    listed cell is a cell of the refreshed grid that is sparse or of high
    mismatch. *)
Theorem identify_gaps_ordered cells sparse_threshold mismatch_threshold :
  let gaps := (identify_gaps cells sparse_threshold mismatch_threshold).2 in
  StronglySorted
    (fun x y => (n_runs x.2 < n_runs y.2)%Z
                \/ (n_runs x.2 = n_runs y.2 /\ max_mismatch y.2 <= max_mismatch x.2))
    gaps
  /\ NoDup gaps.*1
  /\ forall k c, (k, c) ∈ gaps ->
       (identify_gaps cells sparse_threshold mismatch_threshold).1 !! k = Some c
       /\ ((n_runs c < sparse_threshold)%Z \/ mismatch_threshold < max_mismatch c).
Proof.
  cbv zeta. split; [|split].
  - unfold identify_gaps. simpl.
    eapply StronglySorted_weaken; [|apply sort_gaps_sorted].
    intros x y. apply gap_order_iff.
  - unfold identify_gaps. simpl. rewrite sort_gaps_perm.
    apply NoDup_fst_filter, NoDup_fst_map_to_list.
  - intros k c Hin. apply elem_of_identify_gaps in Hin as [Hk Hflag].
    split; [done|]. apply orb_true_iff in Hflag as [H|H].
    + left. by apply Z.ltb_lt.
    + right. unfold is_high_mismatch in H. by destruct (Rlt_dec _ _).
Qed.

(** *** The schedule *)

Lemma range_lookup n (i : nat) x :
  range n !! i = Some x -> x = Z.of_nat i /\ (Z.of_nat i < n)%Z.
Proof.
  unfold range. rewrite list_lookup_fmap.
  destruct (seq 0 (Z.to_nat n) !! i) as [m|] eqn:E; [|done].
  apply lookup_seq in E as [-> Hlt]. simpl. intros [= <-]. lia.
Qed.

Lemma schedule_entry_of_gap cells n_runs (i : nat) config :
  (schedule_runs cells n_runs).2 !! i = Some config ->
  exists k cell,
    (identify_gaps cells default_sparse_threshold default_mismatch_threshold).2
    !! (i mod length (identify_gaps cells default_sparse_threshold
                                    default_mismatch_threshold).2)%nat
    = Some (k, cell)
    /\ cfg_scale config = scale cell
    /\ cfg_temp config = temp cell
    /\ cfg_density config = density cell.
Proof.
  unfold schedule_runs.
  destruct (identify_gaps cells default_sparse_threshold default_mismatch_threshold)
    as [cells' gaps].
  destruct gaps as [|first rest]; simpl; [by rewrite lookup_nil|].
  intros Hi. rewrite list_lookup_fmap in Hi.
  destruct (range n_runs !! i) as [x|] eqn:E; [|done].
  apply range_lookup in E as [-> Hlt]. injection Hi as <-.
  unfold scheduled. cbn [cfg_seed cfg_scale cfg_temp cfg_density cfg_formula].
  set (gaps := first :: rest).
  assert (Z.to_nat (Z.of_nat i mod Z.of_nat (length gaps))
          = (i mod length gaps)%nat) as ->.
  { rewrite <- Nat2Z.inj_mod. apply Nat2Z.id. }
  assert (i mod length gaps < length gaps)%nat as Hlt'
    by (apply Nat.mod_upper_bound; simpl; lia).
  destruct (lookup_lt_is_Some_2 gaps _ Hlt') as [[k cell] Hk].
  rewrite Hk. simpl. exists k, cell. done.
Qed.

(** X19. [schedule_runs] cycles through the gap list: when there is no gap
    the schedule is empty; otherwise it has [n_runs] entries (none for a
    negative [n_runs]), entry [i] carries the seed [1000000 + i], so no two
    seeds coincide, and takes the scale, temperature and density of the gap
    at position [i mod len(gaps)], with the formula that
    [_generate_formula] gives for that scale. *)
Theorem schedule_runs_round_robin cells n_runs :
  let gaps := (identify_gaps cells default_sparse_threshold
                             default_mismatch_threshold).2 in
  let schedule := (schedule_runs cells n_runs).2 in
  (schedule_runs cells n_runs).1
  = (identify_gaps cells default_sparse_threshold default_mismatch_threshold).1
  /\ (gaps = [] -> schedule = [])
  /\ (gaps <> [] -> length schedule = Z.to_nat n_runs)
  /\ NoDup (map cfg_seed schedule)
  /\ forall (i : nat) config,
       schedule !! i = Some config ->
       cfg_seed config = (1000000 + Z.of_nat i)%Z
       /\ exists k cell,
            gaps !! (i mod length gaps)%nat = Some (k, cell)
            /\ cfg_scale config = scale cell
            /\ cfg_temp config = temp cell
            /\ cfg_density config = density cell
            /\ cfg_formula config = _generate_formula (scale cell).
Proof.
  cbv zeta. unfold schedule_runs.
  destruct (identify_gaps cells default_sparse_threshold default_mismatch_threshold)
    as [cells' gaps].
  destruct gaps as [|first rest]; simpl.
  { repeat split; try done. constructor. }
  split; [done|]. split; [done|].
  split; [intros _; unfold range; by rewrite !length_map, length_seq|].
  split.
  - rewrite <- list_fmap_compose.
    apply NoDup_fmap_2_strong; [|unfold range; apply NoDup_fmap_2;
                                  [apply Nat2Z.inj'|apply NoDup_seq]].
    intros x y _ _. unfold scheduled; simpl. lia.
  - intros i config Hi. rewrite list_lookup_fmap in Hi.
    destruct (range n_runs !! i) as [x|] eqn:E; [|done].
    apply range_lookup in E as [-> Hlt]. injection Hi as <-.
    unfold scheduled. cbn [cfg_seed cfg_scale cfg_temp cfg_density cfg_formula].
    split; [lia|].
    set (gaps := first :: rest).
    assert (Z.to_nat (Z.of_nat i mod Z.of_nat (length gaps))
            = (i mod length gaps)%nat) as ->.
    { rewrite <- Nat2Z.inj_mod. apply Nat2Z.id. }
    assert (i mod length gaps < length gaps)%nat as Hlt'
      by (apply Nat.mod_upper_bound; simpl; lia).
    destruct (lookup_lt_is_Some_2 gaps _ Hlt') as [[k cell] Hk].
    rewrite Hk. simpl. exists k, cell. done.
Qed.

(** X20. A scheduled run falls into the gap it was scheduled for: on a grid
    that holds recorded runs, the scale, temperature and density of entry
    [i] of the schedule are mapped by [_get_cell_key] to the key of the gap
    at position [i mod len(gaps)], so that [record_run] will update that
    cell. *)
Theorem schedule_runs_targets_gap runs n_runs (i : nat) config :
  let cells := (record_runs _initialize_grid runs).1 in
  let gaps := (identify_gaps cells default_sparse_threshold
                             default_mismatch_threshold).2 in
  (schedule_runs cells n_runs).2 !! i = Some config ->
  exists k cell,
    gaps !! (i mod length gaps)%nat = Some (k, cell)
    /\ _get_cell_key (cfg_scale config) (cfg_temp config) (cfg_density config) = k.
Proof.
  cbv zeta. intros Hi.
  destruct (schedule_entry_of_gap (record_runs _initialize_grid runs).1
              n_runs i config Hi) as (k & cell & Hk & Hs & Ht & Hd).
  exists k, cell. split; [done|]. rewrite Hs, Ht, Hd.
  apply placed_round_trip.
  assert (placed_grid (record_runs _initialize_grid runs).1) as Hplaced.
  { destruct (record_runs _initialize_grid runs) as [g outcome] eqn:E.
    by apply (record_runs_placed runs _ g outcome _initialize_grid_placed). }
  apply (frames_placed _ _ (compute_mismatches_frames _)) in Hplaced.
  apply Hplaced. apply list_elem_of_lookup_2 in Hk.
  by apply elem_of_identify_gaps in Hk as [Hk _].
Qed.

Lemma gaps_nonempty_of_sparse cells k c :
  cells !! k = Some c -> (n_runs c < default_sparse_threshold)%Z ->
  (identify_gaps cells default_sparse_threshold default_mismatch_threshold).2 <> [].
Proof.
  intros Hc Hsparse.
  pose proof (compute_mismatches_frames cells k) as Hf.
  rewrite Hc in Hf. inversion Hf as [? c' Hsame E1 E2|]; subst. symmetry in E2.
  assert ((k, c') ∈ (identify_gaps cells default_sparse_threshold
                                   default_mismatch_threshold).2) as Hin.
  { apply elem_of_identify_gaps. split; [exact E2|].
    apply orb_true_iff. left. unfold is_sparse.
    destruct Hsame as (_ & _ & _ & <- & _). by apply Z.ltb_lt. }
  intros E. rewrite E in Hin. by apply elem_of_nil in Hin.
Qed.

Lemma initial_gaps_nonempty :
  (identify_gaps _initialize_grid default_sparse_threshold
                 default_mismatch_threshold).2 <> [].
Proof.
  destruct (_initialize_grid_has_key 2 50 0.001) as [c Hc].
  apply (gaps_nonempty_of_sparse _ _ c Hc).
  apply _initialize_grid_untouched in Hc as [E _].
  rewrite E. reflexivity.
Qed.

Lemma schedule_runs_first cells :
  (identify_gaps cells default_sparse_threshold default_mismatch_threshold).2 <> [] ->
  is_Some ((schedule_runs cells 1).2 !! 0%nat).
Proof.
  intros Hne. unfold schedule_runs.
  destruct (identify_gaps cells default_sparse_threshold
              default_mismatch_threshold) as [cells' gaps].
  destruct gaps as [|first rest]; [by destruct Hne|].
  exists (scheduled first rest 0). reflexivity.
Qed.

Lemma schedule_runs_targets_gap_witness :
  exists config k cell,
    (schedule_runs (record_runs _initialize_grid []).1 1).2 !! 0%nat = Some config
    /\ (identify_gaps (record_runs _initialize_grid []).1 default_sparse_threshold
                      default_mismatch_threshold).2
       !! (0 mod length (identify_gaps (record_runs _initialize_grid []).1
                                       default_sparse_threshold
                                       default_mismatch_threshold).2)%nat
       = Some (k, cell)
    /\ _get_cell_key (cfg_scale config) (cfg_temp config) (cfg_density config) = k.
Proof.
  destruct (schedule_runs_first _ initial_gaps_nonempty) as [config Hconfig].
  destruct (schedule_runs_targets_gap [] 1 0 config Hconfig) as (k & cell & H).
  exists config, k, cell. split; [exact Hconfig|exact H].
Defined.

(** *** Success rates and the coverage report *)

(** X21. After any sequence of recorded runs the success rate of every cell
    is a proportion: it lies between 0 and 1, it is 0.0 for a cell without
    runs, and it is [n_success / n_runs], which is 1 exactly when no run of
    the cell failed. *)
Theorem success_rate_proportion runs k c :
  (record_runs _initialize_grid runs).1 !! k = Some c ->
  0 <= success_rate c <= 1
  /\ (n_runs c = 0%Z -> success_rate c = 0)
  /\ ((0 < n_runs c)%Z ->
      success_rate c = IZR (n_success c) / IZR (n_runs c)
      /\ (success_rate c = 1 <-> n_failures c = 0%Z)).
Proof.
  destruct (record_runs_tracks runs _ [] tracks_initial) as (g & E & _ & Hcells).
  rewrite E. simpl. intros Hc.
  destruct (Hcells k c Hc) as ((Hs & _) & Hf & Hcons).
  unfold counters_consistent in Hcons. unfold success_rate.
  assert (0 <= n_success c)%Z by lia. assert (0 <= n_failures c)%Z by lia.
  destruct (Z.ltb_spec 0 (n_runs c)) as [Hpos|Hzero].
  - assert (0 < IZR (n_runs c)) as Hr by (by apply IZR_lt).
    assert (0 <= IZR (n_success c) <= IZR (n_runs c)) as [Hs0 Hs1]
      by (split; apply IZR_le; lia).
    assert (IZR (n_success c) / IZR (n_runs c) <= 1) as Hle.
    { apply Rmult_le_reg_r with (IZR (n_runs c)); [done|]. field_simplify; lra. }
    split; [split; [|done]|split; [lia|]].
    + apply Rmult_le_pos; [done|]. left. by apply Rinv_0_lt_compat.
    + intros _. split; [done|]. split.
      * intros E1. assert (IZR (n_success c) = IZR (n_runs c)) as E2.
        { apply Rmult_eq_reg_r with (/ IZR (n_runs c));
            [|apply Rinv_neq_0_compat; lra].
          rewrite Rinv_r by lra. exact E1. }
        apply eq_IZR in E2. lia.
      * intros E1. replace (n_success c) with (n_runs c) by lia.
        apply Rinv_r. lra.
  - split; [lra|]. split; [intros; lra|lia].
Qed.

Lemma success_rate_proportion_witness :
  exists c,
    _initialize_grid !! _get_cell_key 2 50 0.001 = Some c
    /\ 0 <= success_rate c <= 1.
Proof.
  destruct (_initialize_grid_has_key 2 50 0.001) as [c Hc].
  exists c. split; [exact Hc|].
  exact (proj1 (success_rate_proportion [] _ c Hc)).
Defined.

(** Sums over the cells of a grid. *)
Lemma sum_cells_empty (f : Cell -> Z) : sum_cells f (∅ : grid) = 0%Z.
Proof. unfold sum_cells. by rewrite map_fold_empty. Qed.

Lemma sum_cells_insert_fresh (f : Cell -> Z) (g : grid) (k : key) (c : Cell) :
  g !! k = None -> sum_cells f (<[k := c]> g) = (sum_cells f g + f c)%Z.
Proof.
  intros Hk. unfold sum_cells.
  rewrite map_fold_insert_L; [done| |done]. intros; lia.
Qed.

Lemma sum_cells_update (f : Cell -> Z) (g : grid) (k : key) (c c' : Cell) :
  g !! k = Some c ->
  sum_cells f (<[k := c']> g) = (sum_cells f g - f c + f c')%Z.
Proof.
  intros Hk. rewrite <- (insert_delete_id g k c Hk) at 2.
  rewrite <- (insert_delete_eq g k c').
  rewrite !sum_cells_insert_fresh by apply lookup_delete_eq. lia.
Qed.

Lemma sum_cells_le (f h : Cell -> Z) (g : grid) :
  (forall k c, g !! k = Some c -> (f c <= h c)%Z) ->
  (sum_cells f g <= sum_cells h g)%Z.
Proof.
  induction g as [|k c g Hk IH] using map_ind; intros Hle.
  - by rewrite !sum_cells_empty.
  - rewrite !sum_cells_insert_fresh by done.
    pose proof (Hle k c (lookup_insert_eq _ _ _)).
    assert (sum_cells f g <= sum_cells h g)%Z; [|lia].
    apply IH. intros k' c' Hc'. apply (Hle k').
    rewrite lookup_insert_ne; [done|]. intros ->. congruence.
Qed.

Lemma sum_cells_one (g : grid) : sum_cells (fun _ => 1%Z) g = Z.of_nat (size g).
Proof.
  induction g as [|k c g Hk IH] using map_ind.
  - by rewrite sum_cells_empty, map_size_empty.
  - rewrite sum_cells_insert_fresh, map_size_insert_None by done. lia.
Qed.

Lemma sum_cells_zero (f : Cell -> Z) (g : grid) :
  (forall k c, g !! k = Some c -> f c = 0%Z) -> sum_cells f g = 0%Z.
Proof.
  induction g as [|k c g Hk IH] using map_ind; intros Hz.
  - by rewrite sum_cells_empty.
  - rewrite sum_cells_insert_fresh by done.
    rewrite (Hz k c (lookup_insert_eq _ _ _)), IH; [done|].
    intros k' c' Hc'. apply (Hz k').
    rewrite lookup_insert_ne; [done|]. intros ->. congruence.
Qed.

Lemma _initialize_grid_size : size _initialize_grid = 600%nat.
Proof. vm_compute. reflexivity. Qed.

Lemma sum_cells_plus (f h : Cell -> Z) (g : grid) :
  sum_cells (fun c => (f c + h c)%Z) g = (sum_cells f g + sum_cells h g)%Z.
Proof.
  induction g as [|k c g Hk IH] using map_ind.
  - by rewrite !sum_cells_empty.
  - rewrite !sum_cells_insert_fresh by done. lia.
Qed.

Lemma record_run_totals g recorded r :
  tracks g recorded ->
  exists g',
    record_run g (run_scale r) (run_temp r) (run_density r) (run_success r)
               (run_energy r) = (g', Ok ())
    /\ tracks g' (recorded ++ [r])%list
    /\ size g' = size g
    /\ sum_cells n_runs g' = (sum_cells n_runs g + 1)%Z.
Proof.
  intros Hg. destruct (record_run_tracks g recorded r Hg) as (g' & E & Hg').
  exists g'. split; [exact E|]. split; [exact Hg'|].
  destruct Hg as [Hdom Hcells].
  destruct (Hdom (run_scale r) (run_temp r) (run_density r)) as [c Hc].
  destruct (Hcells _ _ Hc) as (Hsum & Hfail & Hcons).
  destruct (run_success r).
  - rewrite (record_run_success _ _ _ _ _ c Hc) in E
      by (destruct Hsum as [-> _]; lia).
    injection E as <-. split; [by apply map_size_insert_Some|].
    rewrite (sum_cells_update _ _ _ c) by done. simpl. lia.
  - rewrite (record_run_failure _ _ _ _ _ c Hc) in E.
    injection E as <-. split; [by apply map_size_insert_Some|].
    rewrite (sum_cells_update _ _ _ c) by done. simpl. lia.
Qed.

Lemma record_runs_totals runs : forall g recorded,
  tracks g recorded ->
  exists g',
    record_runs g runs = (g', Ok ())
    /\ tracks g' (recorded ++ runs)%list
    /\ size g' = size g
    /\ sum_cells n_runs g' = (sum_cells n_runs g + Z.of_nat (length runs))%Z.
Proof.
  induction runs as [|r runs IH]; intros g recorded Hg.
  - exists g. rewrite app_nil_r. cbn [record_runs length].
    split; [done|]. split; [done|]. split; [done|]. lia.
  - destruct (record_run_totals g recorded r Hg) as (g1 & E1 & Hg1 & Hs1 & Ht1).
    destruct (IH g1 _ Hg1) as (g' & E & Hg' & Hs & Ht).
    exists g'. cbn [record_runs length]. rewrite E1.
    rewrite <- app_assoc in Hg'.
    split; [done|]. split; [done|]. split; [congruence|]. lia.
Qed.

(** X22. The report after any sequence of recorded runs.
    [save_coverage_report] does not divide by zero: the grid keeps its 600
    cells.  [total_runs] is the number of runs recorded, [cells_with_data]
    is at most that number and at most 600, every cell that is not sparse
    has data, and [coverage_percentage] is [cells_with_data / 600 * 100], a
    number between 0 and 100. *)
Theorem save_coverage_report_totals runs :
  exists cells report,
    record_runs _initialize_grid runs = (cells, Ok ())
    /\ save_coverage_report cells = Ok report
    /\ grid_size report = 600%Z
    /\ total_runs report = Z.of_nat (length runs)
    /\ (0 <= cells_with_data report <= Z.min (total_runs report) 600)%Z
    /\ (grid_size report - sparse_cells report <= cells_with_data report)%Z
    /\ coverage_percentage report = IZR (cells_with_data report) / 600 * 100
    /\ 0 <= coverage_percentage report <= 100.
Proof.
  destruct (record_runs_totals runs _ [] tracks_initial)
    as (cells & E & [_ Hcells] & Hsize & Htotal).
  rewrite _initialize_grid_size in Hsize.
  rewrite (sum_cells_zero n_runs _initialize_grid) in Htotal
    by (intros k c Hc; by apply _initialize_grid_untouched in Hc as [-> _]).
  assert (forall k c, cells !! k = Some c -> (0 <= n_runs c)%Z) as Hnonneg.
  { intros k c Hc. destruct (Hcells k c Hc) as ((Hs & _) & Hf & Hcons).
    unfold counters_consistent in Hcons. lia. }
  set (with_data := sum_cells (fun c => indicator (0 <? n_runs c)%Z) cells).
  assert (0 <= with_data)%Z as Hlo.
  { unfold with_data. rewrite <- (sum_cells_zero (fun _ => 0%Z) cells) by done.
    apply sum_cells_le. intros k c _. unfold indicator. by destruct (_ <? _)%Z. }
  assert (with_data <= 600)%Z as Hhi.
  { unfold with_data. replace 600%Z with (Z.of_nat (size cells)) by lia.
    rewrite <- sum_cells_one.
    apply sum_cells_le. intros k c _. unfold indicator. by destruct (_ <? _)%Z. }
  assert (with_data <= Z.of_nat (length runs))%Z as Hruns.
  { unfold with_data. replace (Z.of_nat (length runs)) with (sum_cells n_runs cells)
      by lia.
    apply sum_cells_le. intros k c Hc. pose proof (Hnonneg k c Hc).
    unfold indicator. destruct (Z.ltb_spec 0 (n_runs c)); lia. }
  assert (600 <= sum_cells (fun c => indicator (is_sparse c default_sparse_threshold))
                           cells + with_data)%Z as Hsparse.
  { unfold with_data. rewrite <- sum_cells_plus.
    replace 600%Z with (Z.of_nat (size cells)) by lia. rewrite <- sum_cells_one.
    apply sum_cells_le. intros k c _.
    unfold indicator, is_sparse, default_sparse_threshold.
    destruct (Z.ltb_spec (n_runs c) 10), (Z.ltb_spec 0 (n_runs c)); lia. }
  assert (0 <= IZR with_data <= 600) as [Hlo' Hhi']
    by (split; [apply (IZR_le 0)|apply (IZR_le _ 600)]; done).
  eexists cells, _. split; [exact E|].
  unfold save_coverage_report. rewrite Hsize. fold with_data.
  unfold fdiv. destruct (Req_dec_T (IZR (Z.of_nat 600)) 0) as [Hz|_].
  { exfalso. change (IZR 600 = 0) in Hz. lra. }
  cbn [mbind py_bind Py.bind mret py_ret].
  split; [reflexivity|]. cbn [grid_size total_runs cells_with_data sparse_cells
                               coverage_percentage].
  change (IZR (Z.of_nat 600)) with 600.
  split; [reflexivity|]. split; [lia|]. split; [lia|]. split; [lia|].
  split; [reflexivity|]. lra.
Qed.

(** *** The mismatch refresh does not depend on the order of the cells *)

Lemma mismatch_with_frames g r cell cell' nk :
  frames g r ->
  mean_energy cell = mean_energy cell' -> std_energy cell = std_energy cell' ->
  mismatch_with r cell' nk = mismatch_with g cell nk.
Proof.
  intros Hf Hm Hs. unfold mismatch_with. specialize (Hf nk).
  destruct Hf as [c c' (_ & _ & _ & _ & Hn & _ & Hmean & Hstd)|]; [|done].
  by rewrite <- Hn, <- Hmean, <- Hstd, <- Hm, <- Hs.
Qed.

Lemma omap_mismatch_with_frames g r cell cell' (nks : list key) :
  frames g r ->
  mean_energy cell = mean_energy cell' -> std_energy cell = std_energy cell' ->
  omap (mismatch_with r cell') nks = omap (mismatch_with g cell) nks.
Proof.
  intros Hf Hm Hs. induction nks as [|nk nks IH]; [done|].
  cbn [omap list_omap]. by rewrite (mismatch_with_frames g r cell cell'), IH.
Qed.

Lemma mismatch_step_lookup_ne r i k : i <> k -> mismatch_step r i !! k = r !! k.
Proof.
  intros Hne. unfold mismatch_step. destruct (r !! i) as [cell|]; [|done].
  destruct (n_success cell <? 2)%Z; [done|].
  destruct (omap _ _); [done|]. by rewrite lookup_insert_ne.
Qed.

Lemma mismatch_step_lookup_eq g r i :
  frames g r -> r !! i = g !! i ->
  mismatch_step r i !! i = refreshed g i <$> g !! i.
Proof.
  intros Hf Hi. unfold mismatch_step, refreshed. rewrite Hi.
  destruct (g !! i) as [cell|] eqn:Hcell; [|by rewrite Hi].
  cbn [fmap option_fmap option_map].
  destruct (n_success cell <? 2)%Z; [by rewrite Hi|].
  rewrite (omap_mismatch_with_frames g r cell cell) by done.
  destruct (omap _ _); [by rewrite Hi|]. by rewrite lookup_insert_eq.
Qed.

Lemma compute_mismatches_lookup g k :
  compute_mismatches g !! k = refreshed g k <$> g !! k.
Proof.
  unfold compute_mismatches.
  assert (forall m : grid,
            frames g (map_fold (fun ijk _ acc => mismatch_step acc ijk) g m)
            /\ forall k,
                map_fold (fun ijk _ acc => mismatch_step acc ijk) g m !! k
                = match m !! k with
                  | Some _ => refreshed g k <$> g !! k
                  | None => g !! k
                  end) as H.
  { intros m.
    apply (map_fold_weak_ind
             (fun (r : grid) (m : grid) =>
                frames g r
                /\ forall k, r !! k = match m !! k with
                                      | Some _ => refreshed g k <$> g !! k
                                      | None => g !! k
                                      end)).
    - split; [apply frames_refl|]. intros k'. by rewrite lookup_empty.
    - intros i x m' r Hi [Hf Hr]. split.
      { eapply frames_trans; [exact Hf|]. apply mismatch_step_frames. }
      intros k'. destruct (decide (i = k')) as [<-|Hne].
      + rewrite lookup_insert_eq. apply mismatch_step_lookup_eq; [done|].
        by rewrite Hr, Hi.
      + rewrite lookup_insert_ne, mismatch_step_lookup_ne by done. apply Hr. }
  destruct (H g) as [_ Hg]. rewrite Hg. by destruct (g !! k).
Qed.

Lemma refreshed_same g k c : same_but_mismatch c (refreshed g k c).
Proof.
  unfold refreshed. destruct (n_success c <? 2)%Z; [apply same_but_mismatch_refl|].
  destruct (omap _ _); [apply same_but_mismatch_refl|]. by repeat split.
Qed.

(** X23. [compute_mismatches] is a simultaneous update: the cell it leaves
    at a key is determined by the grid as it was before the call, whatever
    the order in which the loop visits the cells (the loop writes
    [max_mismatch] and reads the other fields only).  A cell with fewer
    than two successes, or with no qualifying neighbour, is left as it is;
    and calling [compute_mismatches] again changes nothing. *)
Theorem compute_mismatches_simultaneous g :
  (forall k, compute_mismatches g !! k = refreshed g k <$> g !! k)
  /\ (forall k c, g !! k = Some c ->
        (n_success c < 2)%Z
        \/ omap (mismatch_with g c) (neighbors k) = [] ->
        compute_mismatches g !! k = Some c)
  /\ compute_mismatches (compute_mismatches g) = compute_mismatches g.
Proof.
  split; [apply compute_mismatches_lookup|]. split.
  - intros k c Hc Hskip. rewrite compute_mismatches_lookup, Hc.
    cbn [fmap option_fmap option_map]. f_equal. unfold refreshed.
    destruct (Z.ltb_spec (n_success c) 2); [done|].
    destruct Hskip as [?|E]; [lia|by rewrite E].
  - apply map_eq. intros k. rewrite !compute_mismatches_lookup.
    destruct (g !! k) as [c|]; [|done]. cbn [fmap option_fmap option_map].
    f_equal. pose proof (refreshed_same g k c) as Hsame.
    destruct Hsame as (_ & _ & _ & _ & Hn & _ & Hm & Hs).
    unfold refreshed at 1. rewrite <- Hn.
    rewrite (omap_mismatch_with_frames g _ c)
      by (done || apply compute_mismatches_frames).
    unfold refreshed.
    destruct (n_success c <? 2)%Z; [done|].
    destruct (omap _ _); done.
Qed.

Lemma compute_mismatches_simultaneous_witness :
  exists c,
    _initialize_grid !! _get_cell_key 2 50 0.001 = Some c
    /\ compute_mismatches _initialize_grid !! _get_cell_key 2 50 0.001 = Some c.
Proof.
  destruct (_initialize_grid_has_key 2 50 0.001) as [c Hc].
  exists c. split; [exact Hc|].
  apply (proj1 (proj2 (compute_mismatches_simultaneous _initialize_grid)) _ c Hc).
  left. apply _initialize_grid_untouched in Hc as (_ & E & _).
  rewrite E. reflexivity.
Defined.

End GapExtra.
